(** * Form widgets of the Axelor front end: expressions, validation, dispatch

    A shallow embedding of the form builder (FormWidget, FormField,
    useExpressions, processSchema) and of the Phone widget, with the
    properties of their data binding proved over it.

    JavaScript values are a small inductive type, JavaScript objects used
    as dictionaries (widget attributes, widget errors) are finite maps, the
    jotai atoms are cells of an explicit store whose writes are logged, and
    the imported modules (expression parser, translations, validation) are
    the members of a class the development is parametric in. *)

From Stdlib Require Import ZArith NArith Ascii String.
From stdpp Require Import gmap strings list fin_maps.

Set Default Proof Using "Type".
Open Scope string_scope.

(** ** JavaScript values *)

Module Js.

(** Objects are known by their reference only: [===] compares them by
    identity.  Numbers are the integers and NaN, enough to show that
    [===] is not reflexive. *)
Inductive value : Type :=
| Undefined
| Null
| Bool (b : bool)
| Num (z : Z)
| NaN
| Str (s : string)
| Obj (ref : positive).

#[global] Instance value_eq_dec : EqDecision value.
Proof. solve_decision. Defined.

(** [Boolean(v)], the test of [if (v)], [!v] and [v && w]. *)
Definition truthy (v : value) : bool :=
  match v with
  | Undefined | Null | NaN => false
  | Bool b => b
  | Num z => negb (Z.eqb z 0)
  | Str s => negb (String.eqb s "")
  | Obj _ => true
  end.

(** [a === b] *)
Definition strict_eq (a b : value) : bool :=
  match a, b with
  | NaN, _ | _, NaN => false
  | _, _ => bool_decide (a = b)
  end.

(** [a !== b] *)
Definition strict_ne (a b : value) : bool := negb (strict_eq a b).

(** [v ?? d] *)
Definition nullish (v d : value) : value :=
  match v with
  | Undefined | Null => d
  | _ => v
  end.

(** lodash [isUndefined] *)
Definition isUndefined (v : value) : bool :=
  match v with Undefined => true | _ => false end.

(** Reading a property of an object: a missing key reads [undefined]. *)
Definition prop (o : gmap string value) (k : string) : value :=
  default Undefined (o !! k).

(** Truthiness of an optional string property ([undefined] and the empty
    string are falsy). *)
Definition truthy_str (o : option string) : bool :=
  match o with
  | Some s => negb (String.eqb s "")
  | None => false
  end.

(** Truthiness of an optional boolean property. *)
Definition truthy_bool (o : option bool) : bool := default false o.

End Js.

(** ** Schemas *)

(** The editor of a field; [viewer] says whether it also serves as viewer. *)
Record Editor : Type := mkEditor {
  ed_viewer : Js.value;
  ed_items : gmap string Js.value
}.

(** A widget schema: the properties the form builder reads, typed as the
    interface declares them, and [extra] for all the others. *)
Record Schema : Type := mkSchema {
  type : option string;
  name : option string;
  jsonField : option string;
  contextField : option string;
  contextFieldValue : option string;
  hidden : option bool;
  required : option bool;
  showIf : option string;
  hideIf : option string;
  readonlyIf : option string;
  requiredIf : option string;
  validIf : option string;
  collapseIf : option string;
  canNew : option string;
  canEdit : option string;
  canView : option string;
  canSave : option string;
  canCopy : option string;
  canRemove : option string;
  canDelete : option string;
  canArchive : option string;
  canAttach : option string;
  canSelect : option string;
  bind : option string;
  editor : option Editor;
  viewer : option (gmap string Js.value);
  extra : gmap string Js.value
}.

(** [{ ...schema, showIf: a, hideIf: b, requiredIf: c }] *)
Definition with_conditions (schema : Schema) (a b c : option string) : Schema :=
  {| type := type schema;
     name := name schema;
     jsonField := jsonField schema;
     contextField := contextField schema;
     contextFieldValue := contextFieldValue schema;
     hidden := hidden schema;
     required := required schema;
     showIf := a;
     hideIf := b;
     readonlyIf := readonlyIf schema;
     requiredIf := c;
     validIf := validIf schema;
     collapseIf := collapseIf schema;
     canNew := canNew schema;
     canEdit := canEdit schema;
     canView := canView schema;
     canSave := canSave schema;
     canCopy := canCopy schema;
     canRemove := canRemove schema;
     canDelete := canDelete schema;
     canArchive := canArchive schema;
     canAttach := canAttach schema;
     canSelect := canSelect schema;
     bind := bind schema;
     editor := editor schema;
     viewer := viewer schema;
     extra := extra schema |}.

(** Interpolation [${x}] of an optional string in a template literal. *)
Definition interpolate (o : option string) : string :=
  default "undefined" o.

(** [function processSchema(schema)] *)
Definition processSchema (schema : Schema) : Schema :=
  if negb (Js.truthy_str (jsonField schema))
     || negb (Js.truthy_str (contextField schema))
     || negb (Js.truthy_str (contextFieldValue schema))
     || (Js.truthy_bool (hidden schema)
         && negb (Js.truthy_str (showIf schema))
         && negb (Js.truthy_str (hideIf schema)))
  then schema
  else
    let contextFieldShowIf :=
      "($record." +:+ interpolate (contextField schema) +:+ ".id === "
        +:+ interpolate (contextFieldValue schema) +:+ ")" in
    let contextFieldRequiredIf :=
      if Js.truthy_bool (required schema) || Js.truthy_str (requiredIf schema)
      then
        if Js.truthy_str (requiredIf schema)
        then Some (contextFieldShowIf +:+ " && ("
                     +:+ interpolate (requiredIf schema) +:+ ")")
        else Some contextFieldShowIf
      else requiredIf schema in
    let contextFieldShowIf :=
      if Js.truthy_str (showIf schema)
      then contextFieldShowIf +:+ " && (" +:+ interpolate (showIf schema) +:+ ")"
      else contextFieldShowIf in
    let contextFieldShowIf :=
      if Js.truthy_str (hideIf schema)
      then contextFieldShowIf +:+ " && !(" +:+ interpolate (hideIf schema) +:+ ")"
      else contextFieldShowIf in
    with_conditions schema (Some contextFieldShowIf) None contextFieldRequiredIf.

(** [function isField(schema)], as the truth value of its result. *)
Definition isField (schema : Schema) : bool :=
  Js.truthy_str (jsonField schema)
  || bool_decide (type schema = Some "field")
  || bool_decide (type schema = Some "panel-related").

(** ** Widget state and the atom store *)

(** The state of a widget: its attributes, its errors (an optional
    property) and the remaining properties. *)
Record WidgetState : Type := mkWidgetState {
  attrs : gmap string Js.value;
  errors : option (gmap string string);
  rest : gmap string Js.value
}.

(** [{ ...state, attrs: a }] *)
Definition with_attrs (state : WidgetState) (a : gmap string Js.value) : WidgetState :=
  {| attrs := a; errors := errors state; rest := rest state |}.

(** [{ ...state, errors: e }] *)
Definition with_errors (state : WidgetState) (e : option (gmap string string)) : WidgetState :=
  {| attrs := attrs state; errors := e; rest := rest state |}.

(** The value atom of a field; [createValueAtom] builds it from the schema. *)
Inductive ValueAtom : Type :=
| createValueAtom (schema : Schema).

(** A call of an atom's setter. *)
Inductive Write : Type :=
| SetWidget (state : WidgetState)
| SetValue (v : Js.value) (fireOnChange markDirty : bool).

(** The cells the atoms of one widget focus on, and the setter calls made
    so far, oldest first. *)
Record Store : Type := mkStore {
  st_widget : WidgetState;
  st_value : Js.value;
  st_record : gmap string Js.value;
  st_log : list Write
}.

(** Atom callbacks read and write the store. *)
Definition M (A : Type) : Type := Store -> A * Store.

Definition ret {A : Type} (a : A) : M A := fun st => (a, st).

Definition bindM {A B : Type} (m : M A) (k : A -> M B) : M B :=
  fun st => let (a, st') := m st in k a st'.

Declare Scope atom_scope.
Delimit Scope atom_scope with atom.
Notation "'let*' x := m 'in' k" := (bindM m (fun x => k))
  (at level 10, x name, m at level 100, k at level 200) : atom_scope.
Notation "m ;; k" := (bindM m (fun _ => k))
  (at level 100, k at level 200, right associativity) : atom_scope.

(** [get(widgetAtom)] *)
Definition get_widget : M WidgetState := fun st => (st_widget st, st).

(** [set(widgetAtom, state)] *)
Definition set_widget (state : WidgetState) : M unit :=
  fun st => (tt, {| st_widget := state; st_value := st_value st;
                    st_record := st_record st;
                    st_log := st_log st ++ [SetWidget state] |}).

(** [set(widgetAtom, (prev) => f(prev))] *)
Definition update_widget (f : WidgetState -> WidgetState) : M unit :=
  fun st => set_widget (f (st_widget st)) st.

(** [get(valueAtom)] *)
Definition get_value : M Js.value := fun st => (st_value st, st).

(** [get(formAtom).record] *)
Definition get_record : M (gmap string Js.value) := fun st => (st_record st, st).

(** The store after a callback has run. *)
Definition exec {A : Type} (m : M A) (st : Store) : Store := snd (m st).

(** The setter calls a callback makes. *)
Definition writes {A : Type} (m : M A) (st : Store) : list Write :=
  drop (length (st_log st)) (st_log (exec m st)).

(** [if (e) k(e)] for an optional string property. *)
Definition when_str (e : option string) (k : string -> M unit) : M unit :=
  match e with
  | Some s => if Js.truthy_str (Some s) then k s else ret tt
  | None => ret tt
  end.

(** ** What FormWidget renders *)

Inductive Element : Type :=
| Custom (render : positive)
| Nothing
| FieldViewer (valueAtom : option ValueAtom)
| FieldEditor (valueAtom : option ValueAtom)
| FormItem (valueAtom : option ValueAtom).

Record FormWidgetProps : Type := mkProps {
  p_schema : Schema;
  p_render : option positive;
  p_readonly : option bool
}.

(** [valueAtom] of FormWidget. *)
Definition valueAtomOf (schema : Schema) : option ValueAtom :=
  if isField schema then Some (createValueAtom schema) else None.

(** [function FormWidget(props)], as a function of the widget state the
    selectors read. *)
Definition FormWidget (props : FormWidgetProps) (state : WidgetState) : Element :=
  let schema := p_schema props in
  let valueAtom := valueAtomOf schema in
  let hidden := Js.prop (attrs state) "hidden" in
  let readonly :=
    Js.truthy (Js.prop (attrs state) "readonly")
    || Js.truthy_bool (p_readonly props) in
  let canEdit := Js.nullish (Js.prop (attrs state) "canEdit") (Js.Bool true) in
  let canView := Js.nullish (Js.prop (attrs state) "canView") (Js.Bool true) in
  let canShowEditor :=
    bool_decide (is_Some (editor schema)) && bool_decide (is_Some valueAtom)
    && Js.truthy canEdit && negb readonly in
  let canShowViewer :=
    bool_decide (is_Some (viewer schema)) && bool_decide (is_Some valueAtom)
    && Js.truthy canView && readonly in
  let showEditorAsViewer :=
    Js.truthy (from_option ed_viewer Js.Undefined (editor schema))
    && bool_decide (is_Some valueAtom) && Js.truthy canView && readonly in
  match p_render props with
  | Some Comp => Custom Comp
  | None =>
      if Js.truthy hidden then Nothing
      else if canShowViewer then FieldViewer valueAtom
      else if canShowEditor || showEditorAsViewer then FieldEditor valueAtom
      else FormItem valueAtom
  end.

(** ** The Phone widget *)

Module Phone.

(** The characters of [\w]: letters, digits and the underscore. *)
Definition is_word (c : ascii) : bool :=
  let n := Ascii.N_of_ascii c in
  ((65 <=? n) && (n <=? 90) || (97 <=? n) && (n <=? 122)
   || (48 <=? n) && (n <=? 57) || (n =? 95))%N.

Definition lower_char (c : ascii) : ascii :=
  let n := Ascii.N_of_ascii c in
  if ((65 <=? n) && (n <=? 90))%N then Ascii.ascii_of_N (n + 32) else c.

(** [s.toLowerCase()] on the letters of ASCII. *)
Fixpoint toLowerCase (s : string) : string :=
  match s with
  | EmptyString => EmptyString
  | String c s' => String (lower_char c) (toLowerCase s')
  end.

(** [cur] is the piece being read, [sep] says that the last character
    read belongs to a separator. *)
Fixpoint split_nonword_from (cur : string) (sep : bool) (s : string) : list string :=
  match s with
  | EmptyString => [cur]
  | String c s' =>
      if is_word c then split_nonword_from (cur +:+ String c EmptyString) false s'
      else if sep then split_nonword_from cur true s'
      else cur :: split_nonword_from EmptyString true s'
  end.

(** [s.split(/\W+/)] *)
Definition split_nonword (s : string) : list string :=
  split_nonword_from EmptyString false s.

Fixpoint split_dash_from (cur : string) (s : string) : list string :=
  match s with
  | EmptyString => [cur]
  | String c s' =>
      if Ascii.eqb c "-"%char then cur :: split_dash_from EmptyString s'
      else split_dash_from (cur +:+ String c EmptyString) s'
  end.

(** [s.split("-")] *)
Definition split_dash (s : string) : list string :=
  split_dash_from EmptyString s.

(** Fallback country codes when country is not found in language code. *)
Definition FALLBACK_COUNTRIES : list (string * string) :=
  [ ("af", "za"); ("ar", "sa"); ("be", "by"); ("bn", "bd"); ("bs", "ba");
    ("cs", "cz"); ("da", "dk"); ("el", "gr"); ("en", "us"); ("et", "ee");
    ("fa", "ir"); ("gu", "in"); ("he", "il"); ("hi", "in"); ("ja", "jp");
    ("ko", "kr"); ("ms", "my"); ("sv", "se"); ("uk", "ua"); ("vi", "vn");
    ("zh", "cn") ].

(** [FALLBACK_COUNTRIES[language]] *)
Definition fallback_country (language : string) : option string :=
  snd <$> List.find (fun kv => String.eqb (fst kv) language) FALLBACK_COUNTRIES.

(** The country of the phone input, as the phone library gives it. *)
Record Country : Type := mkCountry {
  c_name : string;
  iso2 : string;
  dialCode : string
}.

(** The event handed to the handlers of the text input. *)
Record InputEvent : Type := mkEvent {
  target_value : string
}.

(** [onlyCountries] *)
Definition onlyCountries (_onlyCountries : option string) : list string :=
  match _onlyCountries with
  | Some s => toLowerCase <$> split_nonword s
  | None => []
  end.

(** [onlyCountries.includes(c)] *)
Definition includes (l : list string) (c : string) : bool :=
  existsb (String.eqb c) l.

Section WithLocale.

(** [_findLocale] of the localisation service picks, among the
    locales it is given, the one that fits the wanted locale best. *)
Variable _findLocale : list string -> string -> (string -> string) -> option string.

(** The country of the locale: the part after the dash or, without
    one, the country of the first fitting language of the browser. *)
Definition locale_country (locale : string) (languages : list string) : string :=
  let parts := toLowerCase <$> split_dash locale in
  let language := default "" (parts !! 0%nat) in
  let country :=
    match parts !! 1%nat with
    | Some c => Some c
    | None =>
        found ← _findLocale
          (List.filter
             (fun language => Js.truthy_str (split_dash language !! 1%nat))
             languages)
          locale
          (fun language => default "" (split_dash language !! 0%nat));
        toLowerCase <$> (split_dash found !! 1%nat)
    end in
  match country with
  | Some c => c
  | None => default language (fallback_country language)
  end.

(** [defaultCountry] *)
Definition defaultCountry (initialCountry : option string) (locale : string)
    (languages : list string) (only : list string) : string :=
  let defaultCountry :=
    match initialCountry with
    | Some c => if Js.truthy_str (Some c) then c
                else locale_country locale languages
    | None => locale_country locale languages
    end in
  match only with
  | first :: _ =>
      if negb (includes only defaultCountry) then first else defaultCountry
  | [] => defaultCountry
  end.



End WithLocale.

(** [onChange] given to [usePhoneInput]: the event it passes to the
    [onChange] of the text input.  If case of only dial code, set empty
    value instead. *)
Definition onChange (phone : string) (country : Country) : InputEvent :=
  {| target_value :=
       if negb (String.eqb phone ("+" +:+ dialCode country)) then phone else "" |}.

(** [onBlur]: the event it passes to the [onBlur] of the text input. *)
Definition onBlur (phone : string) (country : Country) : InputEvent :=
  {| target_value :=
       if negb (String.eqb phone ("+" +:+ dialCode country)) then phone else "" |}.

End Phone.

(** ** The modules the form builder imports *)

(** [valid] of useExpressions: no widget of the form, or the one of the
    given name, has an entry among its errors. *)
Definition valid (states : option (gmap string WidgetState))
    (name : option string) : bool :=
  let invalid :=
    existsb
      (fun entry : string * WidgetState =>
         (match name with
          | None => true
          | Some name => String.eqb (fst entry) name
          end)
         && negb (Nat.eqb (size (default ∅ (errors (snd entry)))) 0))
      (map_to_list (default ∅ states)) in
  negb invalid.

(** Options of [createEvalContext]; [valid] is handed on as the function
    of the states of the form that it is. *)
Record EvalOptions : Type := mkEvalOptions {
  o_valid : option (gmap string WidgetState) -> option string -> bool;
  o_readonly : bool;
  o_required : bool;
  o_popup : bool
}.

(** The expression parser, the translations and the validation are not
    part of the form builder: it is verified for all of them. *)
Class Externals : Type := {
  (** what expressions are evaluated on *)
  DataContext : Type;
  (** [createEvalContext(record, options)] *)
  createEvalContext : gmap string Js.value -> EvalOptions -> DataContext;
  (** [parseExpression(expr)(context)] *)
  parseExpression : string -> DataContext -> Js.value;
  (** [parseAngularExp(expr)(context)] *)
  parseAngularExp : string -> DataContext -> Js.value;
  (** [i18n.get(message, argument)] *)
  i18n_get : string -> Js.value -> string;
  (** [validate(value, { props: { ...schema, ...attrs }, context: record })];
      the properties are given as their two layers, the attributes
      shadowing the schema. *)
  validate : Js.value -> Schema -> gmap string Js.value -> gmap string Js.value
             -> option (gmap string string);
  (** what the setter of a value atom makes of the record of the form,
      from which [createValueAtom] builds the atom *)
  recordWithValue : ValueAtom -> Js.value -> gmap string Js.value
                    -> gmap string Js.value
}.

(** ** FormField and useExpressions *)

Section Form.

Context {E : Externals}.
Local Open Scope atom_scope.

(** [set(valueAtom, v, fireOnChange, markDirty)]: the atom holds [v], and
    the record of the form is what the atom makes of it. *)
Definition set_value (valueAtom : ValueAtom) (v : Js.value)
    (fireOnChange markDirty : bool) : M unit :=
  fun st => (tt, {| st_widget := st_widget st; st_value := v;
                    st_record := recordWithValue valueAtom v (st_record st);
                    st_log := st_log st ++ [SetValue v fireOnChange markDirty] |}).

(** [valueCheck] of FormField.  [{ invalid, ...errors }] is the union in
    which the errors found shadow the previous [invalid]; lodash [isEqual]
    compares [prev.errors ?? {}] with [errors ?? {}]. *)
Definition valueCheck (schema : Schema) : M unit :=
  let* value := get_value in
  let* prev := get_widget in
  let* record := get_record in
  let invalid := errors prev ≫= (.!! "invalid") in
  let previous := default ∅ (errors prev) in
  let errors := validate value schema (attrs prev) record in
  let errors :=
    match invalid with
    | Some msg =>
        if Js.truthy_str (Some msg)
        then Some (default ∅ errors ∪ {[ "invalid" := msg ]})
        else errors
    | None => errors
    end in
  if bool_decide (previous = default ∅ errors)
  then ret tt
  else update_widget (fun prev => with_errors prev errors).

(** [handleBind] of useExpressions. *)
Definition handleBind (valueAtom : option ValueAtom)
    (context : DataContext) (bind : string) : M unit :=
  match valueAtom with
  | Some valueAtom =>
      let* prevValue := get_value in
      let value := Js.nullish (parseAngularExp bind context) Js.Null in
      (* skip dirty for initial value set *)
      let isDirty :=
        if Js.isUndefined prevValue then false
        else Js.strict_ne prevValue value in
      set_value valueAtom value false isDirty
  | None => ret tt
  end.

(** [handleCondition] of useExpressions.  The attributes of a widget
    state are never undefined, so [state.attrs ?? {}] is [state.attrs]. *)
Definition handleCondition (context : DataContext) (attr : string)
    (expr : string) (negate : bool) : M unit :=
  let value := Js.truthy (parseExpression expr context) in
  let* state := get_widget in
  let attrs := attrs state in
  let prev := Js.prop attrs attr in
  let next := if negate then negb value else value in
  if Js.strict_ne (Js.Bool next) prev
  then set_widget (with_attrs state (<[attr := Js.Bool next]> attrs))
  else ret tt.

(** [handleValidation] of useExpressions; lodash [isEqual] tells
    [undefined] from the empty object. *)
Definition handleValidation (context : DataContext) (expr : string) : M unit :=
  let value := parseExpression expr context in
  let* state := get_widget in
  let previous := errors state in
  let errors :=
    <["invalid" := i18n_get "{0} is invalid" (Js.prop (attrs state) "title")]>
      (default ∅ (errors state)) in
  let errors := if Js.truthy value then delete "invalid" errors else errors in
  if negb (bool_decide (previous = Some errors))
  then set_widget (with_errors state (Some errors))
  else ret tt.

(** [hasExpression] *)
Definition hasExpression (schema : Schema) : bool :=
  Js.truthy_str (showIf schema) || Js.truthy_str (hideIf schema)
  || Js.truthy_str (readonlyIf schema) || Js.truthy_str (requiredIf schema)
  || Js.truthy_str (validIf schema) || Js.truthy_str (collapseIf schema)
  || Js.truthy_str (canNew schema) || Js.truthy_str (canEdit schema)
  || Js.truthy_str (canSave schema) || Js.truthy_str (canCopy schema)
  || Js.truthy_str (canView schema) || Js.truthy_str (canRemove schema)
  || Js.truthy_str (canDelete schema) || Js.truthy_str (canArchive schema)
  || Js.truthy_str (canAttach schema) || Js.truthy_str (canSelect schema).

(** [createContext]: the context of the record under the modes of the
    widget, with the [valid] callback; the references only keep the last one
    for reuse.  An expression that calls [valid] is answered on the states
    the form has at that time, which are no part of the context:
    [parseExpression expr ctx] stands for the value the expression has at the
    one time a handler evaluates it, and what is proved of two evaluations
    says which values it takes them to have. *)
Definition createContext (readonly required popup : bool)
    (record : gmap string Js.value) : DataContext :=
  createEvalContext record
    {| o_valid := valid; o_readonly := readonly; o_required := required;
       o_popup := popup |}.

(** What the record handler calls at each record once useExpressions has
    subscribed; the expressions are those of the processed schema [p]. *)
Definition onRecord (p : Schema) (valueAtom : option ValueAtom)
    (readonly required popup : bool) (record : gmap string Js.value) : M unit :=
  let ctx := createContext readonly required popup record in
  when_str (bind p) (fun bind => handleBind valueAtom ctx bind) ;;
  when_str (showIf p) (fun showIf => handleCondition ctx "hidden" showIf true) ;;
  when_str (hideIf p) (fun hideIf => handleCondition ctx "hidden" hideIf false) ;;
  when_str (readonlyIf p)
    (fun readonlyIf => handleCondition ctx "readonly" readonlyIf false) ;;
  when_str (requiredIf p)
    (fun requiredIf => handleCondition ctx "required" requiredIf false) ;;
  when_str (collapseIf p)
    (fun collapseIf => handleCondition ctx "collapse" collapseIf false) ;;
  when_str (validIf p) (fun validIf => handleValidation ctx validIf) ;;
  when_str (canNew p) (fun canNew => handleCondition ctx "canNew" canNew false) ;;
  when_str (canEdit p) (fun canEdit => handleCondition ctx "canEdit" canEdit false) ;;
  when_str (canView p) (fun canView => handleCondition ctx "canView" canView false) ;;
  when_str (canSave p) (fun canSave => handleCondition ctx "canSave" canSave false) ;;
  when_str (canCopy p) (fun canCopy => handleCondition ctx "canCopy" canCopy false) ;;
  when_str (canRemove p)
    (fun canRemove => handleCondition ctx "canRemove" canRemove false) ;;
  when_str (canDelete p)
    (fun canDelete => handleCondition ctx "canDelete" canDelete false) ;;
  when_str (canArchive p)
    (fun canArchive => handleCondition ctx "canArchive" canArchive false) ;;
  when_str (canAttach p)
    (fun canAttach => handleCondition ctx "canAttach" canAttach false) ;;
  when_str (canSelect p)
    (fun canSelect => handleCondition ctx "canSelect" canSelect false).

(** The effect of [useExpressions]: the subscription to the record
    handler, if any. *)
Definition useExpressions (schema : Schema) (valueAtom : option ValueAtom)
    (readonly required popup : bool)
    : option (gmap string Js.value -> M unit) :=
  let p := processSchema schema in
  if hasExpression p || Js.truthy_str (bind p)
  then Some (onRecord p valueAtom readonly required popup)
  else None.

(** One record update of the widget FormWidget builds for [schema]: the
    record handler calls the subscriber, if there is one. *)
Definition recordUpdate (schema : Schema) (readonly required popup : bool)
    (record : gmap string Js.value) : M unit :=
  match useExpressions schema (valueAtomOf schema) readonly required popup with
  | Some subscriber => subscriber record
  | None => ret tt
  end.

(** *** What the handlers compute, for the statements below *)

(** The value [handleBind] hands to the value atom, and its dirty flag. *)
Definition bound (ctx : DataContext) (bind : string) : Js.value :=
  Js.nullish (parseAngularExp bind ctx) Js.Null.

Definition dirty (prevValue value : Js.value) : bool :=
  if Js.isUndefined prevValue then false else Js.strict_ne prevValue value.

(** The errors [handleValidation] computes from the previous ones. *)
Definition validated (ctx : DataContext) (expr : string)
    (state : WidgetState) : gmap string string :=
  let message := i18n_get "{0} is invalid" (Js.prop (attrs state) "title") in
  let all := <["invalid" := message]> (default ∅ (errors state)) in
  if Js.truthy (parseExpression expr ctx) then delete "invalid" all else all.

(** A call of the widget atom's setter. *)
Definition is_widget_write (w : Write) : Prop :=
  match w with SetWidget _ => True | SetValue _ _ _ => False end.

(** From [st] to [st'] the value atom was not set: the value is the same
    and the log grew by writes of the widget atom only. *)
Definition widget_writes_only (st st' : Store) : Prop :=
  st_value st' = st_value st
  /\ exists ws : list Write, st_log st' = (st_log st ++ ws)%list /\ Forall is_widget_write ws.

End Form.

(** ** The conditions of a context field, in the words of their description *)

(** The condition that the context field of the record has the wanted id. *)
Definition context_condition (contextField contextFieldValue : string) : string :=
  "($record." +:+ contextField +:+ ".id === " +:+ contextFieldValue +:+ ")".

(** An optional expression, wrapped, if there is any. *)
Definition if_any (e : option string) (wrap : string -> string) : list string :=
  match e with
  | Some s => if String.eqb s "" then [] else [wrap s]
  | None => []
  end.

(** A condition conjoined with further ones, in their order. *)
Definition conjoined (condition : string) (others : list string) : string :=
  foldl (fun acc other => acc +:+ " && " +:+ other) condition others.

Definition parenthesised (e : string) : string := "(" +:+ e +:+ ")".
Definition negated (e : string) : string := "!(" +:+ e +:+ ")".

(** The two schemas agree on all properties but [showIf], [hideIf] and
    [requiredIf]. *)
Definition same_other_properties (r s : Schema) : Prop :=
  type r = type s /\ name r = name s /\ jsonField r = jsonField s
  /\ contextField r = contextField s
  /\ contextFieldValue r = contextFieldValue s
  /\ hidden r = hidden s /\ required r = required s
  /\ readonlyIf r = readonlyIf s /\ validIf r = validIf s
  /\ collapseIf r = collapseIf s /\ canNew r = canNew s
  /\ canEdit r = canEdit s /\ canView r = canView s /\ canSave r = canSave s
  /\ canCopy r = canCopy s /\ canRemove r = canRemove s
  /\ canDelete r = canDelete s /\ canArchive r = canArchive s
  /\ canAttach r = canAttach s /\ canSelect r = canSelect s
  /\ bind r = bind s /\ editor r = editor s /\ viewer r = viewer s
  /\ extra r = extra s.

(** ** Sample schemas, records and libraries *)

Module Sample.

(** A schema with the given properties and no other. *)
Definition schema_with (type jsonField contextField contextFieldValue
    showIf hideIf readonlyIf requiredIf validIf collapseIf bind : option string)
    : Schema :=
  {| type := type; name := None; jsonField := jsonField;
     contextField := contextField; contextFieldValue := contextFieldValue;
     hidden := None; required := None;
     showIf := showIf; hideIf := hideIf; readonlyIf := readonlyIf;
     requiredIf := requiredIf; validIf := validIf; collapseIf := collapseIf;
     canNew := None; canEdit := None; canView := None; canSave := None;
     canCopy := None; canRemove := None; canDelete := None;
     canArchive := None; canAttach := None; canSelect := None;
     bind := bind; editor := None; viewer := None; extra := ∅ |}.

(** A record whose context field [ctx] refers to the object 2. *)
Definition record : gmap string Js.value :=
  {[ "ctx" := Js.Obj 2; "fullName" := Js.Str "Jane Doe"; "archived" := Js.Bool false ]}.

(** What the expression parser yields on such a record: the literals, the
    test that [ctx] has id 1, which fails, and the fields by their name. *)
Definition eval (expr : string) (record : gmap string Js.value) : Js.value :=
  if String.eqb expr "true" then Js.Bool true
  else if String.eqb expr "false" then Js.Bool false
  else if String.eqb expr "($record.ctx.id === 1) && (true)" then Js.Bool false
  else Js.prop record expr.

(** The message with the title in the place of [{0}]. *)
Definition translate (message : string) (argument : Js.value) : string :=
  match argument with
  | Js.Str title =>
      if String.eqb message "{0} is invalid" then title +:+ " is invalid"
      else message
  | _ => message
  end.

(** A validation that knows required fields only. *)
Definition check (value : Js.value) (schema : Schema)
    (attrs record : gmap string Js.value) : option (gmap string string) :=
  if (Js.truthy (Js.prop attrs "required")
      || (negb (bool_decide (is_Some (attrs !! "required")))
          && Js.truthy_bool (required schema)))
     && negb (Js.truthy value)
  then Some {[ "required" := "Field is required" ]}
  else None.

(** A value atom that writes the field of the name of its schema. *)
Definition write (valueAtom : ValueAtom) (v : Js.value)
    (record : gmap string Js.value) : gmap string Js.value :=
  match valueAtom with
  | createValueAtom schema =>
      match name schema with
      | Some field => <[field := v]> record
      | None => record
      end
  end.

Definition externals : Externals :=
  {| DataContext := gmap string Js.value;
     createEvalContext := fun record _ => record;
     parseExpression := eval;
     parseAngularExp := eval;
     i18n_get := translate;
     validate := check;
     recordWithValue := write |}.

Definition state (attrs : gmap string Js.value)
    (errors : option (gmap string string)) : WidgetState :=
  {| attrs := attrs; errors := errors; rest := ∅ |}.

(** A store that was never written. *)
Definition store (widget : WidgetState) (value : Js.value) : Store :=
  {| st_widget := widget; st_value := value; st_record := record; st_log := [] |}.

(** A JSON field shown for the records of context 1 only. *)
Definition context_field : Schema :=
  schema_with (Some "field") (Some "attrs") (Some "ctx") (Some "1")
    (Some "true") None None None None None None.

(** A panel with a [bind] expression. *)
Definition bound_panel : Schema :=
  schema_with (Some "panel") None None None None None None None None None
    (Some "fullName").

(** A field with a [bind] expression. *)
Definition bound_field : Schema :=
  schema_with (Some "field") None None None None None None None None None
    (Some "fullName").

(** A field with conditions and a validity expression. *)
Definition conditions : Schema :=
  schema_with (Some "field") None None None None (Some "archived")
    (Some "true") (Some "true") (Some "archived") (Some "false") None.

(** A field with [showIf] alone. *)
Definition shown : Schema :=
  schema_with (Some "field") None None None (Some "archived") None None None
    None None None.

(** A widget that was never touched, in a store that was never written. *)
Definition fresh : Store := store (state ∅ None) Js.Undefined.

(** A hidden widget. *)
Definition hidden_state : WidgetState :=
  state {[ "hidden" := Js.Bool true ]} None.

(** A readonly widget. *)
Definition readonly_state : WidgetState :=
  state {[ "readonly" := Js.Bool true ]} None.

(** The properties of a widget rendered by a function of its own. *)
Definition rendered : FormWidgetProps :=
  {| p_schema := shown; p_render := Some 1%positive; p_readonly := None |}.

(** The properties of a widget rendered by the form builder. *)
Definition plain : FormWidgetProps :=
  {| p_schema := shown; p_render := None; p_readonly := None |}.

(** A required field whose validity expression failed before. *)
Definition failed : Store :=
  store (state {[ "required" := Js.Bool true ]}
           (Some {[ "invalid" := "Name is invalid" ]}))
    Js.Null.

(** A JSON field of a context, with all three conditions. *)
Definition context_all : Schema :=
  schema_with (Some "field") (Some "attrs") (Some "ctx") (Some "1")
    (Some "a") (Some "b") None (Some "c") None None None.

Definition france : Phone.Country :=
  {| Phone.c_name := "France"; Phone.iso2 := "fr"; Phone.dialCode := "33" |}.


End Sample.

(** ** The rest of the form builder *)

(** What FormItem renders; [Unknown] shows the name of the widget. *)
Inductive ItemElement : Type :=
| ItemNothing
| ItemField (component : positive) (schema : Schema) (readonly : Js.value)
    (valueAtom : ValueAtom)
| ItemWidget (component : positive) (schema : Schema) (readonly : Js.value)
| ItemUnknown (widget : Js.value).

Module Item.

(** [function Unknown(props)]: a [div] holding [schema.widget]. *)
Definition Unknown (schema : Schema) (readonly : Js.value) : ItemElement :=
  ItemUnknown (Js.prop (extra schema) "widget").

(** [function FormItem(props)]; [Comp] is what [useWidget(schema)] found. *)
Definition FormItem (Comp : option positive) (schema : Schema)
    (valueAtom : option ValueAtom) (readonly : option bool)
    (state : WidgetState) : ItemElement :=
  let attrs := attrs state in
  if Js.truthy (Js.prop attrs "hidden") then ItemNothing
  else
    let readonly :=
      match readonly with
      | Some true => Js.Bool true
      | _ => Js.prop attrs "readonly"
      end in
    match Comp with
    | Some Comp =>
        match valueAtom with
        | Some valueAtom => ItemField Comp schema readonly valueAtom
        | None => ItemWidget Comp schema readonly
        end
    | None => Unknown schema readonly
    end.

End Item.

(** What is on the screen for a widget: FormWidget, and FormItem below it
    when FormWidget renders the plain form item. *)
Inductive Screen : Type :=
| Shown (element : Element)
| Below (item : ItemElement).

Definition render (useWidget : Schema -> option positive)
    (props : FormWidgetProps) (state : WidgetState) : Screen :=
  match FormWidget props state with
  | FormItem valueAtom =>
      Below (Item.FormItem (useWidget (p_schema props)) (p_schema props)
              valueAtom (p_readonly props) state)
  | element => Shown element
  end.

(** [invalidAtom] of FormField:
    [Object.values(errors).filter(Boolean).length > 0]. *)
Definition invalid (state : WidgetState) : bool :=
  negb (Nat.eqb
          (length (List.filter (fun message => negb (String.eqb message ""))
                     (snd <$> map_to_list (default ∅ (errors state)))))
          0).

(** *** The error of the server *)

(** The states of the widgets by name, and the writes of the atom focused
    on the error of the server, oldest first. *)
Record ServerErrors : Type := mkServerErrors {
  statesByName : gmap string WidgetState;
  se_log : list (string * string)
}.

(** [get(serverErrorAtom)]: the optic reads
    [statesByName[name].errors.error], with [{ errors: {} }] for a missing
    state and [{ error: "" }] for missing errors. *)
Definition serverError (name : string) (form : ServerErrors) : option string :=
  match statesByName form !! name with
  | Some state =>
      match errors state with
      | Some errs => errs !! "error"
      | None => Some ""
      end
  | None => None
  end.

(** [clearError] of FormField, for the field of name [schema.name ?? ""]:
    the optic writes the empty error in the place of the one it read. *)
Definition clearError (schema : Schema) (form : ServerErrors) : ServerErrors :=
  let key := default "" (name schema) in
  if Js.truthy_str (serverError key form)
  then
    {| statesByName :=
         alter (fun state =>
                  with_errors state
                    (Some (<["error" := ""]> (default ∅ (errors state)))))
           key (statesByName form);
       se_log := se_log form ++ [(key, "")] |}
  else form.

(** *** The context of the last record *)

Section Memo.

Context {E : Externals}.

(** [modeRef], [recordRef] and [contextRef] of useExpressions. *)
Record Refs : Type := mkRefs {
  modeRef : bool * bool;
  recordRef : option (gmap string Js.value);
  contextRef : option DataContext
}.

(** The references when useExpressions is first called. *)
Definition initialRefs (readonly required : bool) : Refs :=
  {| modeRef := (readonly, required); recordRef := None; contextRef := None |}.

(** [createContext] with its references: the context and the references
    afterwards.  Records are compared by what they hold. *)
Definition createContextRef (readonly required popup : bool) (refs : Refs)
    (record : gmap string Js.value) : DataContext * Refs :=
  let fresh :=
    let ctx :=
      createEvalContext record
        {| o_valid := valid; o_readonly := readonly; o_required := required;
           o_popup := popup |} in
    (ctx, {| modeRef := (readonly, required); recordRef := Some record;
             contextRef := Some ctx |}) in
  match contextRef refs with
  | None => fresh
  | Some ctx =>
      if negb (bool_decide (recordRef refs = Some record))
         || negb (Bool.eqb (fst (modeRef refs)) readonly)
         || negb (Bool.eqb (snd (modeRef refs)) required)
      then fresh
      else (ctx, refs)
  end.

(** The references hold the context of their record and modes, made for
    [popup]. *)
Definition cached (popup : bool) (refs : Refs) : Prop :=
  match contextRef refs with
  | Some ctx =>
      exists record,
        recordRef refs = Some record
        /\ ctx = createEvalContext record
                   {| o_valid := valid; o_readonly := fst (modeRef refs);
                      o_required := snd (modeRef refs); o_popup := popup |}
  | None => True
  end.

End Memo.

(** *** The rest of the Phone widget *)

Module PhoneInput.

(** [country.format]: a format, or formats of which one is the default. *)
Inductive Format : Type :=
| Plain (format : string)
| Formats (default : string) (others : gmap string string).

(** [".".repeat(n)] *)
Fixpoint dots (n : nat) : string :=
  match n with
  | O => EmptyString
  | S n' => String "."%char (dots n')
  end.

(** [s.replace(".", digits)]: the first dot only. *)
Fixpoint replace_first_dot (digits : string) (s : string) : string :=
  match s with
  | EmptyString => EmptyString
  | String c s' =>
      if Ascii.eqb c "."%char then digits +:+ s'
      else String c (replace_first_dot digits s')
  end.

(** The digit [n % 10]. *)
Definition digit (n : nat) : ascii :=
  Ascii.ascii_of_nat (48 + n mod 10).

(** [s.replace(/\./g, () => `${++currentNumber % 10}`)], [currentNumber]
    being the number of dots replaced so far. *)
Fixpoint number_dots (currentNumber : nat) (s : string) : string :=
  match s with
  | EmptyString => EmptyString
  | String c s' =>
      if Ascii.eqb c "."%char
      then String (digit (S currentNumber)) (number_dots (S currentNumber) s')
      else String c (number_dots currentNumber s')
  end.

Section Placeholder.

(** [String.prototype.toUpperCase], which the language provides: it is left
    open here, and nothing is assumed of it. *)
Variable toUpperCase : string -> string.

(** The format the placeholder is made of: that of the country, with a 6
    for its first dot for the mobile numbers of France. *)
Definition phoneFormat (placeholderNumberType : option string)
    (format : option Format) (dialCode : string) : string :=
  let format := default (Plain (dots 9)) format in
  let phoneFormat :=
    match format with
    | Plain f => f
    | Formats f _ => f
    end in
  (* Special case for French mobile phone numbers *)
  if String.eqb dialCode "33"
     && bool_decide (toUpperCase <$> placeholderNumberType = Some "MOBILE")
  then replace_first_dot "6" phoneFormat
  else phoneFormat.

(** [placeholder] *)
Definition placeholder (_placeholder placeholderNumberType : option string)
    (format : option Format) (dialCode : string) : string :=
  if Js.truthy_str _placeholder then default "" _placeholder
  else
    let numbers :=
      number_dots 0 (phoneFormat placeholderNumberType format dialCode) in
    "+" +:+ dialCode +:+ " " +:+ numbers.

End Placeholder.

(** [[...new Set(l)]]: the elements in their order, each at its first
    place; [seen] holds those met before. *)
Fixpoint distinct_from (seen l : list string) : list string :=
  match l with
  | [] => []
  | x :: l' =>
      if Phone.includes seen x then distinct_from seen l'
      else x :: distinct_from (x :: seen) l'
  end.

(** The country of a language of the browser, when it may be preferred. *)
Definition language_country (only : list string) (language : string)
    : option string :=
  match Phone.toLowerCase <$> (Phone.split_dash language !! 1%nat) with
  | Some country =>
      if Js.truthy_str (Some country)
         && (Nat.eqb (length only) 0 || Phone.includes only country)
      then Some country
      else None
  | None => None
  end.

(** [preferredCountries] *)
Definition preferredCountries (defaultCountry : string)
    (languages only : list string) : list string :=
  distinct_from [] (defaultCountry :: omap (language_country only) languages).

(** Only the characters [a-z], [0-9] and [_]. *)
Definition lower_word (s : string) : bool :=
  forallb (fun c => Phone.is_word c && Ascii.eqb (Phone.lower_char c) c)
    (list_ascii_of_string s).

End PhoneInput.

(** *** What a record update may change *)

(** The attributes the subscriber of useExpressions computes. *)
Definition conditional_attributes : list string :=
  [ "hidden"; "readonly"; "required"; "collapse"; "canNew"; "canEdit";
    "canView"; "canSave"; "canCopy"; "canRemove"; "canDelete"; "canArchive";
    "canAttach"; "canSelect" ].

(** From [st] to [st'] the record, the remaining properties of the widget
    state and the attributes that are not computed are the same. *)
Definition widget_frame (st st' : Store) : Prop :=
  st_record st' = st_record st
  /\ rest (st_widget st') = rest (st_widget st)
  /\ forall k, k ∉ conditional_attributes ->
       attrs (st_widget st') !! k = attrs (st_widget st) !! k.

(** *** Widget states that agree with the expressions *)

Section Settled.

Context {E : Externals}.


End Settled.

(** *** More sample schemas *)

Module Cases.


(** A panel that was given an editor and a viewer. *)
Definition panel_with_editor : Schema :=
  {| type := Some "panel"; name := Some "details"; jsonField := None;
     contextField := None; contextFieldValue := None;
     hidden := None; required := None;
     showIf := None; hideIf := None; readonlyIf := None;
     requiredIf := None; validIf := None; collapseIf := None;
     canNew := None; canEdit := None; canView := None; canSave := None;
     canCopy := None; canRemove := None; canDelete := None;
     canArchive := None; canAttach := None; canSelect := None;
     bind := None;
     editor := Some {| ed_viewer := Js.Bool true; ed_items := ∅ |};
     viewer := Some ∅; extra := ∅ |}.

(** The properties of that panel in a readonly form. *)
Definition panel_props : FormWidgetProps :=
  {| p_schema := panel_with_editor; p_render := None; p_readonly := Some true |}.

(** Every schema has the widget 7. *)
Definition useWidget (schema : Schema) : option positive := Some 7%positive.

(** The format of the numbers of France. *)
Definition french_format : option PhoneInput.Format :=
  Some (PhoneInput.Plain ". .. .. .. ..").

(** A validation that calls every value invalid, in words of its own,
    with the other modules as in the sample. *)
Definition rejecting : Externals :=
  {| DataContext := gmap string Js.value;
     createEvalContext := fun record _ => record;
     parseExpression := Sample.eval;
     parseAngularExp := Sample.eval;
     i18n_get := Sample.translate;
     validate := fun _ _ _ _ => Some {[ "invalid" := "Value is not allowed" ]};
     recordWithValue := Sample.write |}.

Definition upper_char (c : ascii) : ascii :=
  let n := Ascii.N_of_ascii c in
  if ((97 <=? n) && (n <=? 122))%N then Ascii.ascii_of_N (n - 32) else c.

(** The upper case of a string of ASCII characters, which is what
    [toUpperCase] yields on such a string; it leaves every other character
    alone, and is used on ASCII strings only. *)
Fixpoint upper_ascii (s : string) : string :=
  match s with
  | EmptyString => EmptyString
  | String c s' => String (upper_char c) (upper_ascii s')
  end.

End Cases.

(** ** Properties of the store and of the handlers *)

Section FormProperties.

Context {E : Externals}.
Local Open Scope list_scope.
Local Open Scope atom_scope.

Lemma exec_seq {A B : Type} (m : M A) (k : M B) (st : Store) :
  exec (m ;; k) st = exec k (exec m st).
Proof. unfold exec, bindM. by destruct (m st). Qed.

Lemma exec_when_str (e : option string) (k : string -> M unit) (st : Store) :
  exec (when_str e k) st =
    match e with
    | Some s => if Js.truthy_str e then exec (k s) st else st
    | None => st
    end.
Proof. destruct e as [s|]; [|done]. simpl. by destruct (negb _). Qed.

(** [next !== prev] for a boolean [next] *)
Lemma strict_ne_Bool (b : bool) (v : Js.value) :
  Js.strict_ne (Js.Bool b) v = negb (bool_decide (v = Js.Bool b)).
Proof.
  unfold Js.strict_ne, Js.strict_eq. f_equal.
  destruct v; try done; apply bool_decide_ext; split; congruence.
Qed.

(** The closed form of [handleCondition]. *)
Lemma handleCondition_exec (ctx : DataContext) (attr expr : string)
    (negate : bool) (st : Store) :
  let next := xorb negate (Js.truthy (parseExpression expr ctx)) in
  exec (handleCondition ctx attr expr negate) st =
    if bool_decide (Js.prop (attrs (st_widget st)) attr = Js.Bool next)
    then st
    else
      let state := with_attrs (st_widget st)
                     (<[attr := Js.Bool next]> (attrs (st_widget st))) in
      {| st_widget := state; st_value := st_value st;
         st_record := st_record st;
         st_log := st_log st ++ [SetWidget state] |}.
Proof.
  simpl. unfold handleCondition, exec, bindM, get_widget.
  assert ((if negate then negb (Js.truthy (parseExpression expr ctx))
           else Js.truthy (parseExpression expr ctx))
          = xorb negate (Js.truthy (parseExpression expr ctx))) as ->.
  { by destruct negate, (Js.truthy _). }
  rewrite strict_ne_Bool. by case_bool_decide.
Qed.

(** After [handleCondition] the attribute holds the computed boolean,
    whether the atom was written or not. *)
Lemma handleCondition_sets (ctx : DataContext) (attr expr : string)
    (negate : bool) (st : Store) :
  attrs (st_widget (exec (handleCondition ctx attr expr negate) st)) !! attr
  = Some (Js.Bool (xorb negate (Js.truthy (parseExpression expr ctx)))).
Proof.
  rewrite handleCondition_exec. simpl. case_bool_decide as Hp; simpl.
  - unfold Js.prop in Hp. by destruct (attrs (st_widget st) !! attr); simplify_eq/=.
  - by rewrite lookup_insert_eq.
Qed.

(** [handleCondition] touches no other attribute. *)
Lemma handleCondition_other (ctx : DataContext) (attr expr : string)
    (negate : bool) (st : Store) (k : string) :
  k <> attr ->
  attrs (st_widget (exec (handleCondition ctx attr expr negate) st)) !! k
  = attrs (st_widget st) !! k.
Proof.
  intros Hk. rewrite handleCondition_exec. simpl. case_bool_decide; simpl; [done|].
  by rewrite lookup_insert_ne.
Qed.

(** [handleCondition] touches neither the errors, nor the remaining
    properties, nor the value, nor the record. *)
Lemma handleCondition_frame (ctx : DataContext) (attr expr : string)
    (negate : bool) (st : Store) :
  let st' := exec (handleCondition ctx attr expr negate) st in
  errors (st_widget st') = errors (st_widget st)
  /\ rest (st_widget st') = rest (st_widget st)
  /\ st_value st' = st_value st
  /\ st_record st' = st_record st.
Proof. simpl. rewrite handleCondition_exec. simpl. by case_bool_decide. Qed.

(** The closed form of [handleValidation]. *)
Lemma handleValidation_exec (ctx : DataContext) (expr : string) (st : Store) :
  let errs := validated ctx expr (st_widget st) in
  exec (handleValidation ctx expr) st =
    if bool_decide (errors (st_widget st) = Some errs)
    then st
    else
      let state := with_errors (st_widget st) (Some errs) in
      {| st_widget := state; st_value := st_value st;
         st_record := st_record st;
         st_log := st_log st ++ [SetWidget state] |}.
Proof.
  simpl. unfold handleValidation, validated, exec, bindM, get_widget.
  by case_bool_decide.
Qed.

Lemma handleValidation_errors (ctx : DataContext) (expr : string) (st : Store) :
  errors (st_widget (exec (handleValidation ctx expr) st))
  = Some (validated ctx expr (st_widget st)).
Proof. rewrite handleValidation_exec. simpl. by case_bool_decide. Qed.

Lemma handleValidation_frame (ctx : DataContext) (expr : string) (st : Store) :
  let st' := exec (handleValidation ctx expr) st in
  attrs (st_widget st') = attrs (st_widget st)
  /\ rest (st_widget st') = rest (st_widget st)
  /\ st_value st' = st_value st
  /\ st_record st' = st_record st.
Proof. simpl. rewrite handleValidation_exec. simpl. by case_bool_decide. Qed.

Lemma validated_invalid (ctx : DataContext) (expr : string) (state : WidgetState) :
  validated ctx expr state !! "invalid" =
    if Js.truthy (parseExpression expr ctx) then None
    else Some (i18n_get "{0} is invalid" (Js.prop (attrs state) "title")).
Proof.
  unfold validated. destruct (Js.truthy _).
  - by rewrite lookup_delete_eq.
  - by rewrite lookup_insert_eq.
Qed.

Lemma validated_other (ctx : DataContext) (expr : string) (state : WidgetState)
    (k : string) :
  k <> "invalid" ->
  validated ctx expr state !! k = default ∅ (errors state) !! k.
Proof.
  intros Hk. unfold validated. destruct (Js.truthy _).
  - rewrite lookup_delete_ne by done. by rewrite lookup_insert_ne.
  - by rewrite lookup_insert_ne.
Qed.

(** The closed form of [handleBind]. *)
Lemma handleBind_exec (valueAtom : option ValueAtom) (ctx : DataContext)
    (bind : string) (st : Store) :
  exec (handleBind valueAtom ctx bind) st =
    match valueAtom with
    | Some valueAtom =>
        {| st_widget := st_widget st; st_value := bound ctx bind;
           st_record := recordWithValue valueAtom (bound ctx bind) (st_record st);
           st_log := st_log st
                     ++ [SetValue (bound ctx bind) false
                           (dirty (st_value st) (bound ctx bind))] |}
    | None => st
    end.
Proof. by destruct valueAtom. Qed.

(** *** One statement of the subscriber at a time *)

Lemma step_skip (e : option string) (k : string -> M unit) (st : Store) :
  Js.truthy_str e = false -> exec (when_str e k) st = st.
Proof. intros He. rewrite exec_when_str, He. by destruct e. Qed.

Lemma step_run (e : option string) (k : string -> M unit) (st : Store) (s : string) :
  e = Some s -> s <> "" -> exec (when_str e k) st = exec (k s) st.
Proof.
  intros -> Hs. rewrite exec_when_str. simpl.
  destruct (String.eqb_spec s ""); done.
Qed.

Lemma step_cond_other (e : option string) (ctx : DataContext) (attr : string)
    (negate : bool) (st : Store) (k : string) :
  k <> attr ->
  attrs (st_widget (exec (when_str e (fun expr => handleCondition ctx attr expr negate)) st)) !! k
  = attrs (st_widget st) !! k.
Proof.
  intros Hk. rewrite exec_when_str. destruct e as [s|]; [|done].
  destruct (Js.truthy_str _); [|done]. by apply handleCondition_other.
Qed.

Lemma step_cond_errors (e : option string) (ctx : DataContext) (attr : string)
    (negate : bool) (st : Store) :
  errors (st_widget (exec (when_str e (fun expr => handleCondition ctx attr expr negate)) st))
  = errors (st_widget st).
Proof.
  rewrite exec_when_str. destruct e as [s|]; [|done].
  destruct (Js.truthy_str _); [|done]. apply handleCondition_frame.
Qed.

Lemma step_cond_sets (e : option string) (ctx : DataContext) (attr : string)
    (negate : bool) (st : Store) (s : string) :
  e = Some s -> s <> "" ->
  attrs (st_widget (exec (when_str e (fun expr => handleCondition ctx attr expr negate)) st)) !! attr
  = Some (Js.Bool (xorb negate (Js.truthy (parseExpression s ctx)))).
Proof.
  intros He Hs. rewrite (step_run _ _ _ _ He Hs). apply handleCondition_sets.
Qed.

Lemma step_valid_attrs (e : option string) (ctx : DataContext) (st : Store) :
  attrs (st_widget (exec (when_str e (fun expr => handleValidation ctx expr)) st))
  = attrs (st_widget st).
Proof.
  rewrite exec_when_str. destruct e as [s|]; [|done].
  destruct (Js.truthy_str _); [|done]. apply handleValidation_frame.
Qed.

Lemma step_bind_widget (e : option string) (valueAtom : option ValueAtom)
    (ctx : DataContext) (st : Store) :
  st_widget (exec (when_str e (fun bind => handleBind valueAtom ctx bind)) st)
  = st_widget st.
Proof.
  rewrite exec_when_str. destruct e as [s|]; [|done].
  destruct (Js.truthy_str _); [|done]. rewrite handleBind_exec.
  by destruct valueAtom.
Qed.

(** *** The value atom is set by [handleBind] only *)

Lemma widget_writes_only_refl (st : Store) : widget_writes_only st st.
Proof. split; [done|]. exists []. by rewrite app_nil_r. Qed.

Lemma widget_writes_only_trans (st1 st2 st3 : Store) :
  widget_writes_only st1 st2 -> widget_writes_only st2 st3 ->
  widget_writes_only st1 st3.
Proof.
  intros [Hv1 (ws1 & Hl1 & Hw1)] [Hv2 (ws2 & Hl2 & Hw2)]. split; [congruence|].
  exists (ws1 ++ ws2). split.
  - by rewrite Hl2, Hl1, app_assoc.
  - by apply Forall_app.
Qed.

Lemma step_cond_log (e : option string) (ctx : DataContext) (attr : string)
    (negate : bool) (st : Store) :
  widget_writes_only st
    (exec (when_str e (fun expr => handleCondition ctx attr expr negate)) st).
Proof.
  rewrite exec_when_str. destruct e as [s|]; [|apply widget_writes_only_refl].
  destruct (Js.truthy_str _); [|apply widget_writes_only_refl].
  rewrite handleCondition_exec. simpl.
  case_bool_decide; [apply widget_writes_only_refl|].
  split; [done|]. eexists [_]. split; [done|]. by repeat constructor.
Qed.

Lemma step_valid_log (e : option string) (ctx : DataContext) (st : Store) :
  widget_writes_only st
    (exec (when_str e (fun expr => handleValidation ctx expr)) st).
Proof.
  rewrite exec_when_str. destruct e as [s|]; [|apply widget_writes_only_refl].
  destruct (Js.truthy_str _); [|apply widget_writes_only_refl].
  rewrite handleValidation_exec. simpl.
  case_bool_decide; [apply widget_writes_only_refl|].
  split; [done|]. eexists [_]. split; [done|]. by repeat constructor.
Qed.

(** *** processSchema keeps what it does not rewrite *)

Lemma processSchema_cases (schema : Schema) :
  processSchema schema = schema
  \/ exists a c, processSchema schema = with_conditions schema a None c.
Proof.
  unfold processSchema. destruct (_ || _); [by left|]. right. eauto.
Qed.

Lemma processSchema_keeps (schema : Schema) :
  bind (processSchema schema) = bind schema
  /\ readonlyIf (processSchema schema) = readonlyIf schema
  /\ collapseIf (processSchema schema) = collapseIf schema
  /\ validIf (processSchema schema) = validIf schema.
Proof.
  destruct (processSchema_cases schema) as [->|(a & c & ->)]; done.
Qed.

(** *** A record update runs the subscriber *)

Lemma onRecord_without_expression (p : Schema) (valueAtom : option ValueAtom)
    (readonly required popup : bool) (record : gmap string Js.value) (st : Store) :
  hasExpression p || Js.truthy_str (bind p) = false ->
  exec (onRecord p valueAtom readonly required popup record) st = st.
Proof.
  unfold hasExpression. intros Hno.
  repeat match goal with
         | Hf : _ || _ = false |- _ =>
             apply orb_false_iff in Hf; destruct Hf
         end.
  unfold onRecord. rewrite !exec_seq.
  by repeat (rewrite step_skip by done).
Qed.

Lemma recordUpdate_onRecord (schema : Schema) (readonly required popup : bool)
    (record : gmap string Js.value) (st : Store) :
  exec (recordUpdate schema readonly required popup record) st
  = exec (onRecord (processSchema schema) (valueAtomOf schema)
            readonly required popup record) st.
Proof.
  unfold recordUpdate, useExpressions.
  destruct (hasExpression _ || _) eqn:Hsub; [done|].
  by rewrite onRecord_without_expression.
Qed.

(** Peels the statements of the subscriber that leave an attribute alone. *)
Ltac later_steps :=
  repeat first [ rewrite step_cond_other by done | rewrite step_valid_attrs ].

Lemma onRecord_hideIf (p : Schema) (valueAtom : option ValueAtom)
    (readonly required popup : bool) (record : gmap string Js.value)
    (st : Store) (expr : string) :
  hideIf p = Some expr -> expr <> "" ->
  attrs (st_widget (exec (onRecord p valueAtom readonly required popup record) st))
    !! "hidden"
  = Some (Js.Bool (Js.truthy
      (parseExpression expr (createContext readonly required popup record)))).
Proof.
  intros He Hne. unfold onRecord. rewrite !exec_seq. later_steps.
  by rewrite (step_cond_sets _ _ _ _ _ _ He Hne).
Qed.

Lemma onRecord_showIf (p : Schema) (valueAtom : option ValueAtom)
    (readonly required popup : bool) (record : gmap string Js.value)
    (st : Store) (expr : string) :
  showIf p = Some expr -> expr <> "" -> Js.truthy_str (hideIf p) = false ->
  attrs (st_widget (exec (onRecord p valueAtom readonly required popup record) st))
    !! "hidden"
  = Some (Js.Bool (negb (Js.truthy
      (parseExpression expr (createContext readonly required popup record))))).
Proof.
  intros He Hne Hh. unfold onRecord. rewrite !exec_seq. later_steps.
  rewrite (step_skip (hideIf p)) by done.
  by rewrite (step_cond_sets _ _ _ _ _ _ He Hne).
Qed.

Lemma onRecord_readonlyIf (p : Schema) (valueAtom : option ValueAtom)
    (readonly required popup : bool) (record : gmap string Js.value)
    (st : Store) (expr : string) :
  readonlyIf p = Some expr -> expr <> "" ->
  attrs (st_widget (exec (onRecord p valueAtom readonly required popup record) st))
    !! "readonly"
  = Some (Js.Bool (Js.truthy
      (parseExpression expr (createContext readonly required popup record)))).
Proof.
  intros He Hne. unfold onRecord. rewrite !exec_seq. later_steps.
  by rewrite (step_cond_sets _ _ _ _ _ _ He Hne).
Qed.

Lemma onRecord_requiredIf (p : Schema) (valueAtom : option ValueAtom)
    (readonly required popup : bool) (record : gmap string Js.value)
    (st : Store) (expr : string) :
  requiredIf p = Some expr -> expr <> "" ->
  attrs (st_widget (exec (onRecord p valueAtom readonly required popup record) st))
    !! "required"
  = Some (Js.Bool (Js.truthy
      (parseExpression expr (createContext readonly required popup record)))).
Proof.
  intros He Hne. unfold onRecord. rewrite !exec_seq. later_steps.
  by rewrite (step_cond_sets _ _ _ _ _ _ He Hne).
Qed.

Lemma onRecord_collapseIf (p : Schema) (valueAtom : option ValueAtom)
    (readonly required popup : bool) (record : gmap string Js.value)
    (st : Store) (expr : string) :
  collapseIf p = Some expr -> expr <> "" ->
  attrs (st_widget (exec (onRecord p valueAtom readonly required popup record) st))
    !! "collapse"
  = Some (Js.Bool (Js.truthy
      (parseExpression expr (createContext readonly required popup record)))).
Proof.
  intros He Hne. unfold onRecord. rewrite !exec_seq. later_steps.
  by rewrite (step_cond_sets _ _ _ _ _ _ He Hne).
Qed.

(** *** The setter calls of a callback *)

Lemma writes_none {A : Type} (m : M A) (st : Store) :
  exec m st = st -> writes m st = [].
Proof. unfold writes. intros ->. by rewrite drop_all. Qed.

Lemma writes_app {A : Type} (m : M A) (st : Store) (ws : list Write) :
  st_log (exec m st) = st_log st ++ ws -> writes m st = ws.
Proof. unfold writes. intros ->. by rewrite drop_app_length. Qed.

(** The statements after [handleBind] do not set the value atom. *)
Lemma onRecord_after_bind (p : Schema) (valueAtom : option ValueAtom)
    (readonly required popup : bool) (record : gmap string Js.value) (st : Store) :
  widget_writes_only
    (exec (when_str (bind p)
             (fun bind => handleBind valueAtom
                            (createContext readonly required popup record) bind)) st)
    (exec (onRecord p valueAtom readonly required popup record) st).
Proof.
  unfold onRecord. rewrite !exec_seq.
  repeat (eapply widget_writes_only_trans;
          [|first [apply step_cond_log | apply step_valid_log]]).
  apply widget_writes_only_refl.
Qed.

Lemma validated_ext (ctx : DataContext) (expr : string) (s1 s2 : WidgetState) :
  attrs s1 !! "title" = attrs s2 !! "title" -> errors s1 = errors s2 ->
  validated ctx expr s1 = validated ctx expr s2.
Proof. unfold validated, Js.prop. by intros -> ->. Qed.

(** The statements before [handleValidation] change neither the title
    nor the errors, those after it leave the errors alone. *)
Lemma onRecord_errors (p : Schema) (valueAtom : option ValueAtom)
    (readonly required popup : bool) (record : gmap string Js.value)
    (st : Store) (expr : string) :
  validIf p = Some expr -> expr <> "" ->
  errors (st_widget (exec (onRecord p valueAtom readonly required popup record) st))
  = Some (validated (createContext readonly required popup record) expr
            (st_widget st)).
Proof.
  intros He Hne. unfold onRecord. rewrite !exec_seq, !step_cond_errors.
  rewrite (step_run _ _ _ _ He Hne), handleValidation_errors. f_equal.
  apply validated_ext.
  - repeat (rewrite step_cond_other by done). by rewrite step_bind_widget.
  - by rewrite !step_cond_errors, step_bind_widget.
Qed.

(** ** The claims on the handlers *)

(** C7. [handleCondition] does nothing to the widget state when the
    computed value of the attribute equals the current one: the widget
    atom is written only when the boolean result, negated if asked, differs
    from the previous value of the attribute, and then only the named
    attribute changes; the other attributes, the errors, the remaining
    properties of the widget state, the value and the record are carried
    over. *)
Theorem handleCondition_writes_on_change_only (ctx : DataContext)
    (attr expr : string) (negate : bool) (st : Store) :
  let value := Js.truthy (parseExpression expr ctx) in
  let next := if negate then negb value else value in
  let prev := Js.prop (attrs (st_widget st)) attr in
  let st' := exec (handleCondition ctx attr expr negate) st in
  (writes (handleCondition ctx attr expr negate) st <> [] <-> prev <> Js.Bool next)
  /\ (prev = Js.Bool next -> st' = st)
  /\ (prev <> Js.Bool next ->
      writes (handleCondition ctx attr expr negate) st = [SetWidget (st_widget st')]
      /\ attrs (st_widget st') !! attr = Some (Js.Bool next)
      /\ (forall k, k <> attr ->
            attrs (st_widget st') !! k = attrs (st_widget st) !! k)
      /\ errors (st_widget st') = errors (st_widget st)
      /\ rest (st_widget st') = rest (st_widget st)
      /\ st_value st' = st_value st
      /\ st_record st' = st_record st).
Proof.
  intros value next prev st'.
  assert (next = xorb negate value) as Hnext by (by destruct negate, value).
  assert (prev = Js.Bool next -> st' = st) as Hsame.
  { intros Hp. subst st'. rewrite handleCondition_exec. simpl.
    fold value. rewrite <- Hnext. fold prev. by rewrite bool_decide_true. }
  assert (prev <> Js.Bool next ->
          st_log st' = st_log st ++ [SetWidget (st_widget st')]) as Hlog.
  { intros Hp. subst st'. rewrite handleCondition_exec. simpl.
    fold value. rewrite <- Hnext. fold prev. by rewrite bool_decide_false. }
  split; [|split]; [|done|].
  - split.
    + intros Hw Hp. apply Hw, writes_none. by apply Hsame.
    + intros Hp. rewrite (writes_app _ _ _ (Hlog Hp)). done.
  - intros Hp. split; [by apply writes_app, Hlog|]. subst st'.
    split; [|split].
    + rewrite handleCondition_sets. fold value. by rewrite <- Hnext.
    + intros k Hk. by apply handleCondition_other.
    + apply handleCondition_frame.
Qed.

(** C1, amended.  The expressions a record update evaluates are those
    of the processed schema [processSchema schema], which is the schema
    itself unless it is a JSON field bound to a context field.  After each
    record update the attribute [hidden] is the boolean value of its
    [hideIf] when it has one, and otherwise the negation of the boolean
    value of its [showIf] when it has one; [readonly], [required] and
    [collapse] are the boolean values of its [readonlyIf], [requiredIf]
    and [collapseIf], where [readonlyIf] and [collapseIf] are those of the
    schema. *)
Theorem recordUpdate_conditions (schema : Schema) (readonly required popup : bool)
    (record : gmap string Js.value) (st : Store) :
  let p := processSchema schema in
  let ctx := createContext readonly required popup record in
  let after :=
    attrs (st_widget (exec (recordUpdate schema readonly required popup record) st)) in
  (forall expr, hideIf p = Some expr -> expr <> "" ->
     after !! "hidden" = Some (Js.Bool (Js.truthy (parseExpression expr ctx))))
  /\ (forall expr, showIf p = Some expr -> expr <> "" ->
       Js.truthy_str (hideIf p) = false ->
       after !! "hidden"
       = Some (Js.Bool (negb (Js.truthy (parseExpression expr ctx)))))
  /\ (forall expr, readonlyIf schema = Some expr -> expr <> "" ->
       after !! "readonly" = Some (Js.Bool (Js.truthy (parseExpression expr ctx))))
  /\ (forall expr, requiredIf p = Some expr -> expr <> "" ->
       after !! "required" = Some (Js.Bool (Js.truthy (parseExpression expr ctx))))
  /\ (forall expr, collapseIf schema = Some expr -> expr <> "" ->
       after !! "collapse" = Some (Js.Bool (Js.truthy (parseExpression expr ctx)))).
Proof.
  intros p ctx after. subst after. rewrite recordUpdate_onRecord. fold p.
  destruct (processSchema_keeps schema) as (_ & Hro & Hco & _). fold p in Hro, Hco.
  repeat split; intros expr He Hne.
  - by apply onRecord_hideIf.
  - intros Hh. by apply onRecord_showIf.
  - apply onRecord_readonlyIf; [congruence|done].
  - by apply onRecord_requiredIf.
  - apply onRecord_collapseIf; [congruence|done].
Qed.

(** C5. For a schema with a [validIf] expression, after each record
    update the errors of the widget hold an [invalid] entry, the message
    [{0} is invalid] for the title of the widget, exactly when the
    expression is falsy, and none when it is truthy, the other entries
    being the previous ones; [handleValidation] writes the widget atom only
    when the errors it computes differ from the previous errors, and then
    changes the errors only. *)
Theorem validIf_sets_invalid (schema : Schema) (readonly required popup : bool)
    (record : gmap string Js.value) (st : Store) (expr : string) :
  validIf schema = Some expr -> expr <> "" ->
  let ctx := createContext readonly required popup record in
  let holds := Js.truthy (parseExpression expr ctx) in
  let message := i18n_get "{0} is invalid" (Js.prop (attrs (st_widget st)) "title") in
  let st' := exec (recordUpdate schema readonly required popup record) st in
  (exists errs,
      errors (st_widget st') = Some errs
      /\ (holds = false -> errs !! "invalid" = Some message)
      /\ (holds = true -> errs !! "invalid" = None)
      /\ (forall k, k <> "invalid" ->
            errs !! k = default ∅ (errors (st_widget st)) !! k))
  /\ (forall st0 : Store,
        let st1 := exec (handleValidation ctx expr) st0 in
        (writes (handleValidation ctx expr) st0 <> []
         <-> errors (st_widget st1) <> errors (st_widget st0))
        /\ (errors (st_widget st1) = errors (st_widget st0) -> st1 = st0)
        /\ (errors (st_widget st1) <> errors (st_widget st0) ->
            writes (handleValidation ctx expr) st0 = [SetWidget (st_widget st1)]
            /\ attrs (st_widget st1) = attrs (st_widget st0)
            /\ rest (st_widget st1) = rest (st_widget st0))).
Proof.
  intros He Hne ctx holds message st'. split.
  - exists (validated ctx expr (st_widget st)). subst st'.
    rewrite recordUpdate_onRecord. split; [|split; [|split]].
    + apply onRecord_errors; [|done].
      destruct (processSchema_keeps schema) as (_ & _ & _ & Hv). congruence.
    + intros Hf. rewrite validated_invalid. fold ctx holds. by rewrite Hf.
    + intros Ht. rewrite validated_invalid. fold ctx holds. by rewrite Ht.
    + intros k Hk. by apply validated_other.
  - intros st0 st1.
    assert (errors (st_widget st1) = Some (validated ctx expr (st_widget st0)))
      as Herr by apply handleValidation_errors.
    assert (errors (st_widget st1) = errors (st_widget st0) -> st1 = st0) as Hsame.
    { intros Heq. subst st1. rewrite handleValidation_exec in *. simpl in *.
      rewrite bool_decide_true; [done|]. congruence. }
    assert (errors (st_widget st1) <> errors (st_widget st0) ->
            st_log st1 = st_log st0 ++ [SetWidget (st_widget st1)]) as Hlog.
    { intros Hd. subst st1. rewrite handleValidation_exec in *. simpl in *.
      case_bool_decide as Hb; [|done]. simpl in Hd. congruence. }
    split; [|split]; [|done|].
    + split.
      * intros Hw Heq. apply Hw, writes_none. by apply Hsame.
      * intros Hd. by rewrite (writes_app _ _ _ (Hlog Hd)).
    + intros Hd. split; [by apply writes_app, Hlog|]. subst st1.
      split; apply handleValidation_frame.
Qed.

(** C4, amended.  For a field-like schema, the only ones with a value
    atom, that has a [bind] expression, each record update sets the value
    of the field to what the expression evaluates to on the context of the
    record, [null] standing for [null] and [undefined]; the setter is
    called once, without firing [onChange], with a dirty flag that is false
    when the previous value was [undefined] and otherwise true exactly when
    the new value is not [===] to the previous one. *)
Theorem recordUpdate_bind (schema : Schema) (readonly required popup : bool)
    (record : gmap string Js.value) (st : Store) (expr : string) :
  bind schema = Some expr -> expr <> "" -> isField schema = true ->
  let ctx := createContext readonly required popup record in
  let result := parseAngularExp expr ctx in
  let value :=
    match result with Js.Undefined | Js.Null => Js.Null | _ => result end in
  let prevValue := st_value st in
  exists (isDirty : bool) (ws : list Write),
    st_value (exec (recordUpdate schema readonly required popup record) st) = value
    /\ writes (recordUpdate schema readonly required popup record) st
       = SetValue value false isDirty :: ws
    /\ Forall is_widget_write ws
    /\ (prevValue = Js.Undefined -> isDirty = false)
    /\ (prevValue <> Js.Undefined ->
        (isDirty = true <-> Js.strict_eq prevValue value = false)).
Proof.
  intros Hb Hne Hf ctx result value prevValue.
  exists (dirty prevValue value).
  assert (valueAtomOf schema = Some (createValueAtom schema)) as Hva.
  { unfold valueAtomOf. by rewrite Hf. }
  destruct (onRecord_after_bind (processSchema schema) (valueAtomOf schema)
              readonly required popup record st) as [Hval (ws & Hlog & Hws)].
  destruct (processSchema_keeps schema) as (Hbind & _).
  rewrite (step_run _ _ _ expr) in Hval, Hlog by congruence.
  rewrite handleBind_exec, Hva in Hval, Hlog. simpl in Hval, Hlog.
  exists ws. split; [|split; [|split; [|split]]].
  - by rewrite recordUpdate_onRecord, Hva, Hval.
  - apply writes_app. rewrite recordUpdate_onRecord, Hva, Hlog.
    by rewrite <- app_assoc.
  - done.
  - intros Hp. unfold dirty. by rewrite Hp.
  - intros Hp. unfold dirty, Js.strict_ne.
    destruct prevValue; try done; simpl; by rewrite negb_true_iff.
Qed.

(** C3, amended. [valueCheck] validates the current value against the
    schema and the current attributes of the widget, in the context of the
    current record.  The new errors are those found, to which the previous
    [invalid] error, if there is one and it is not empty, is added unless the
    validation found an [invalid] error of its own, which then stands in its
    place; without a previous [invalid] error, or with an empty one, the new
    errors are those found and nothing else.  The widget atom is written
    only when the new errors differ from the previous ones, missing errors
    counting as none: then only the errors of the widget state change,
    otherwise nothing changes at all. *)
Theorem valueCheck_merges_and_writes_on_change (schema : Schema) (st : Store) :
  let prev := st_widget st in
  let found := validate (st_value st) schema (attrs prev) (st_record st) in
  let st' := exec (valueCheck schema) st in
  exists new : option (gmap string string),
    (forall k msg, default ∅ found !! k = Some msg -> default ∅ new !! k = Some msg)
    /\ (forall k, k <> "invalid" -> default ∅ new !! k = default ∅ found !! k)
    /\ (forall msg, errors prev ≫= (.!! "invalid") = Some msg -> msg <> "" ->
          default ∅ found !! "invalid" = None ->
          default ∅ new !! "invalid" = Some msg)
    /\ (errors prev ≫= (.!! "invalid") = None
        \/ errors prev ≫= (.!! "invalid") = Some "" -> new = found)
    /\ (default ∅ (errors prev) = default ∅ new -> st' = st)
    /\ (default ∅ (errors prev) <> default ∅ new ->
        st_widget st' = with_errors prev new
        /\ writes (valueCheck schema) st = [SetWidget (with_errors prev new)]
        /\ st_value st' = st_value st
        /\ st_record st' = st_record st)
    /\ (writes (valueCheck schema) st <> []
        <-> default ∅ (errors prev) <> default ∅ new).
Proof.
  intros prev found st'.
  set (invalid := errors prev ≫= (.!! "invalid")).
  set (new := match invalid with
              | Some msg => if Js.truthy_str (Some msg)
                            then Some (default ∅ found ∪ {[ "invalid" := msg ]})
                            else found
              | None => found
              end).
  assert (default ∅ (errors prev) = default ∅ new -> st' = st) as Hsame.
  { intros Heq. subst st'. unfold valueCheck, exec, bindM. simpl.
    fold prev found invalid new. by rewrite bool_decide_true. }
  assert (default ∅ (errors prev) <> default ∅ new ->
          st' = {| st_widget := with_errors prev new; st_value := st_value st;
                   st_record := st_record st;
                   st_log := st_log st ++ [SetWidget (with_errors prev new)] |})
    as Hdiff.
  { intros Hd. subst st'. unfold valueCheck, exec, bindM. simpl.
    fold prev found invalid new. by rewrite bool_decide_false. }
  exists new. split; [|split; [|split; [|split; [|split; [|split]]]]].
  - intros k msg Hk. subst new. destruct invalid as [m|]; [|done].
    destruct (Js.truthy_str _); [|done]. simpl.
    by apply lookup_union_Some_l.
  - intros k Hk. subst new. destruct invalid as [m|]; [|done].
    destruct (Js.truthy_str _); [|done]. simpl.
    rewrite lookup_union_l; [done|]. by rewrite lookup_singleton_ne.
  - intros msg Hm Hne Hnone. subst new. rewrite Hm. simpl.
    destruct (String.eqb_spec msg ""); [done|]. simpl.
    rewrite lookup_union_r by done. by rewrite lookup_singleton_eq.
  - subst new. by intros [-> | ->].
  - done.
  - intros Hd. split; [by rewrite (Hdiff Hd)|].
    split; [|by rewrite (Hdiff Hd)].
    apply writes_app. fold st'. by rewrite (Hdiff Hd).
  - split.
    + intros Hw Heq. apply Hw, writes_none. by apply Hsame.
    + intros Hd. erewrite writes_app; [|fold st'; by rewrite (Hdiff Hd)]. done.
Qed.

End FormProperties.

(** ** The claims on schemas and on the dispatch *)

(** C6. [processSchema] returns the schema it is given whenever
    [jsonField], [contextField] or [contextFieldValue] is absent (undefined
    or empty), or the schema is hidden with neither [showIf] nor [hideIf].
    Otherwise the schema it returns has no [hideIf]; its [showIf] is the
    context condition conjoined with the original [showIf], if any, and with
    the negation of the original [hideIf], if any; its [requiredIf] is,
    whenever [required] or [requiredIf] was set, the context condition
    conjoined with the original [requiredIf], if any, and the original one
    otherwise; all other properties are those of the schema. *)
Theorem processSchema_context_field (schema : Schema) :
  let absent (e : option string) := Js.truthy_str e = false in
  let untouched :=
    absent (jsonField schema) \/ absent (contextField schema)
    \/ absent (contextFieldValue schema)
    \/ (hidden schema = Some true /\ absent (showIf schema)
        /\ absent (hideIf schema)) in
  (untouched -> processSchema schema = schema)
  /\ (~ untouched ->
      exists field value : string,
        contextField schema = Some field
        /\ contextFieldValue schema = Some value
        /\ let condition := context_condition field value in
           let result := processSchema schema in
           hideIf result = None
           /\ showIf result
              = Some (conjoined condition
                        (if_any (showIf schema) parenthesised
                         ++ if_any (hideIf schema) negated))
           /\ (required schema = Some true \/ ~ absent (requiredIf schema) ->
               requiredIf result
               = Some (conjoined condition
                         (if_any (requiredIf schema) parenthesised)))
           /\ (~ (required schema = Some true \/ ~ absent (requiredIf schema)) ->
               requiredIf result = requiredIf schema)
           /\ same_other_properties result schema).
Proof.
  intros absent untouched. subst absent untouched. unfold processSchema.
  destruct schema as [ty nm jf cf cv hd rq sh hi ro ri vi co
                        cn ce cw cs cc cr cd ca ct cl bi ed vw ex].
  simpl. split.
  - intros [Hj|[Hc|[Hv|(Hh & Hs & Hi)]]].
    + by rewrite Hj.
    + rewrite Hc. by rewrite orb_true_r.
    + rewrite Hv. by rewrite !orb_true_r.
    + rewrite Hh, Hs, Hi. by rewrite !orb_true_r.
  - intros Hnot.
    destruct (Js.truthy_str jf) eqn:Hj; [|tauto].
    destruct (Js.truthy_str cf) eqn:Hc; [|tauto].
    destruct (Js.truthy_str cv) eqn:Hv; [|tauto].
    destruct cf as [field|]; [|done]. destruct cv as [value|]; [|done].
    assert (Js.truthy_bool hd && negb (Js.truthy_str sh) && negb (Js.truthy_str hi)
            = false) as ->.
    { destruct hd as [[]|]; [|done..]. simpl.
      destruct (Js.truthy_str sh) eqn:Hs; [done|].
      destruct (Js.truthy_str hi) eqn:Hi; [done|]. tauto. }
    simpl. exists field, value. split; [done|]. split; [done|].
    split; [done|]. split; [|split; [|split]].
    + destruct sh as [s|], hi as [h|]; simpl;
        repeat (match goal with
                | |- context [String.eqb ?x ""] => destruct (String.eqb x "")
                end; simpl); done.
    + intros Hset. destruct ri as [r|]; simpl.
      * destruct (String.eqb r "") eqn:Hr; simpl; [|by rewrite orb_true_r].
        destruct Hset as [->|Hset]; [done|]. exfalso. apply Hset. simpl.
        by rewrite Hr.
      * destruct Hset as [->|Hset]; [done|]. exfalso. by apply Hset.
    + intros Hunset.
      destruct (Js.truthy_bool rq || Js.truthy_str ri) eqn:Hor; [|done].
      exfalso. apply Hunset. apply orb_true_iff in Hor as [Hr|Hr].
      * left. by destruct rq as [[]|].
      * right. by rewrite Hr.
    + by repeat split.
Qed.

(** C8. FormWidget creates a value atom for a schema exactly when the
    schema is field-like: its [jsonField] is set, or its type is [field] or
    [panel-related]; for every other schema there is no value atom. *)
Theorem valueAtom_for_fields_only (schema : Schema) :
  let field_like :=
    Js.truthy_str (jsonField schema) = true
    \/ type schema = Some "field" \/ type schema = Some "panel-related" in
  (valueAtomOf schema = Some (createValueAtom schema) <-> field_like)
  /\ (valueAtomOf schema = None <-> ~ field_like).
Proof.
  intros field_like.
  assert (isField schema = true <-> field_like) as Hf.
  { unfold isField, field_like.
    rewrite !orb_true_iff, !bool_decide_eq_true. tauto. }
  unfold valueAtomOf. destruct (isField schema).
  - split; split; [by intros _; apply Hf | done | done |].
    intros Hn. destruct Hn. by apply Hf.
  - split; split; [done | | | done].
    + intros Hfl. by apply Hf in Hfl.
    + intros _ Hfl. by apply Hf in Hfl.
Qed.

(** C2, amended.  A render property takes over the whole rendering, also
    of a hidden widget.  Without one, FormWidget dispatches in this order:
    a hidden widget renders nothing; otherwise the viewer is rendered
    exactly when the schema has a viewer, a value atom exists, [canView]
    holds and the widget is readonly; otherwise the editor is rendered
    exactly when the schema has an editor, a value atom exists, [canEdit]
    holds and the widget is not readonly, or when the editor serves as
    viewer, a value atom exists, [canView] holds and the widget is readonly;
    otherwise the plain form item is rendered. *)
Theorem FormWidget_dispatch (props : FormWidgetProps) (state : WidgetState) :
  let schema := p_schema props in
  let valueAtom := valueAtomOf schema in
  let is_hidden := Js.truthy (Js.prop (attrs state) "hidden") = true in
  let readonly :=
    Js.truthy (Js.prop (attrs state) "readonly") = true
    \/ p_readonly props = Some true in
  let allowed (can : string) :=
    Js.truthy (Js.nullish (Js.prop (attrs state) can) (Js.Bool true)) = true in
  let as_viewer :=
    is_Some (viewer schema) /\ is_Some valueAtom /\ allowed "canView" /\ readonly in
  let as_editor :=
    (is_Some (editor schema) /\ is_Some valueAtom /\ allowed "canEdit" /\ ~ readonly)
    \/ ((exists e, editor schema = Some e /\ Js.truthy (ed_viewer e) = true)
        /\ is_Some valueAtom /\ allowed "canView" /\ readonly) in
  (forall Comp, p_render props = Some Comp -> FormWidget props state = Custom Comp)
  /\ (p_render props = None ->
      (is_hidden -> FormWidget props state = Nothing)
      /\ (~ is_hidden ->
          (FormWidget props state = FieldViewer valueAtom <-> as_viewer)
          /\ (FormWidget props state = FieldEditor valueAtom
              <-> ~ as_viewer /\ as_editor)
          /\ (FormWidget props state = FormItem valueAtom
              <-> ~ as_viewer /\ ~ as_editor))).
Proof.
  intros schema valueAtom is_hidden readonly allowed as_viewer as_editor.
  split.
  { intros Comp HC. unfold FormWidget. by rewrite HC. }
  intros Hno. unfold FormWidget. rewrite Hno. fold schema valueAtom.
  set (ro := Js.truthy (Js.prop (attrs state) "readonly")
             || Js.truthy_bool (p_readonly props)).
  set (cv := Js.truthy (Js.nullish (Js.prop (attrs state) "canView") (Js.Bool true))).
  set (ce := Js.truthy (Js.nullish (Js.prop (attrs state) "canEdit") (Js.Bool true))).
  set (ev := Js.truthy (from_option ed_viewer Js.Undefined (editor schema))).
  assert (ro = true <-> readonly) as Hro.
  { unfold ro, readonly. rewrite orb_true_iff.
    destruct (p_readonly props) as [[]|]; simpl; intuition congruence. }
  assert (forall can,
            Js.truthy (Js.nullish (Js.prop (attrs state) can) (Js.Bool true)) = true
            <-> allowed can) as Hcan by done.
  assert (ev = true
          <-> exists e, editor schema = Some e /\ Js.truthy (ed_viewer e) = true)
    as Hev.
  { unfold ev. destruct (editor schema) as [e|]; simpl.
    - split; [intros He; by exists e|]. intros (e' & ? & ?). by simplify_eq.
    - split; [done|]. by intros (e' & ? & ?). }
  pose proof (Hcan "canView") as Hcv. fold cv in Hcv.
  pose proof (Hcan "canEdit") as Hce. fold ce in Hce.
  set (view := bool_decide (is_Some (viewer schema))
               && bool_decide (is_Some valueAtom) && cv && ro).
  set (edit := bool_decide (is_Some (editor schema))
               && bool_decide (is_Some valueAtom) && ce && negb ro
               || ev && bool_decide (is_Some valueAtom) && cv && ro).
  assert (view = true <-> as_viewer) as Hv.
  { unfold view, as_viewer. rewrite !andb_true_iff, !bool_decide_eq_true. tauto. }
  assert (edit = true <-> as_editor) as He.
  { unfold edit, as_editor.
    rewrite orb_true_iff, !andb_true_iff, !bool_decide_eq_true, negb_true_iff.
    rewrite <- not_true_iff_false. tauto. }
  clearbody as_viewer as_editor view edit. split.
  { unfold is_hidden. by intros ->. }
  intros Hshown. unfold is_hidden in Hshown. apply not_true_is_false in Hshown.
  rewrite Hshown.
  destruct view.
  { assert as_viewer by by apply Hv. repeat split; try done; tauto. }
  assert (~ as_viewer) by (rewrite <- Hv; congruence).
  destruct edit.
  - assert as_editor by by apply He. repeat split; try done; tauto.
  - assert (~ as_editor) by (rewrite <- He; congruence).
    repeat split; try done; tauto.
Qed.

(** ** The claims on the Phone widget *)

Lemma includes_elem_of (l : list string) (c : string) :
  Phone.includes l c = true <-> c ∈ l.
Proof.
  unfold Phone.includes. rewrite existsb_exists, list_elem_of_In. split.
  - intros (x & Hx & Heq). apply String.eqb_eq in Heq. by subst.
  - intros Hc. exists c. split; [done|]. apply String.eqb_refl.
Qed.

(** C9. When the phone number is the dial code alone, a plus sign followed
    by the dial code of the selected country, the change handler and the
    blur handler both hand on the empty string as the value of the field;
    for any other phone number they hand on the phone number itself. *)
Theorem dial_code_alone_is_empty (phone : string) (country : Phone.Country) :
  (phone = "+" +:+ Phone.dialCode country ->
   Phone.target_value (Phone.onChange phone country) = ""
   /\ Phone.target_value (Phone.onBlur phone country) = "")
  /\ (phone <> "+" +:+ Phone.dialCode country ->
      Phone.target_value (Phone.onChange phone country) = phone
      /\ Phone.target_value (Phone.onBlur phone country) = phone).
Proof.
  unfold Phone.onChange, Phone.onBlur. cbn [Phone.target_value].
  destruct (String.eqb_spec phone ("+" +:+ Phone.dialCode country));
    split; intros; done.
Qed.


(** ** The claims at sample inputs *)

(** C1 fails as first stated.  The JSON field [Sample.context_field] has
    the [showIf] expression [true], which holds on every record, yet a
    record update on a record of another context evaluates the processed
    expression and leaves the widget hidden: [hidden] is not the negation of
    the boolean value of [showIf]. *)
Lemma context_field_showIf_not_followed :
  showIf Sample.context_field = Some "true"
  /\ Js.truthy (@parseExpression Sample.externals "true"
                  (createContext (E:=Sample.externals) false false false
                     Sample.record)) = true
  /\ attrs (st_widget
              (exec (recordUpdate (E:=Sample.externals) Sample.context_field
                       false false false Sample.record) Sample.fresh))
       !! "hidden" = Some (Js.Bool true)
  /\ attrs (st_widget
              (exec (recordUpdate (E:=Sample.externals) Sample.context_field
                       false false false Sample.record) Sample.fresh))
       !! "hidden"
     <> Some (Js.Bool (negb (Js.truthy
          (@parseExpression Sample.externals "true"
             (createContext (E:=Sample.externals) false false false
                Sample.record))))).
Proof.
  split; [reflexivity|]. split; [reflexivity|]. split; [by vm_compute|].
  by vm_compute.
Qed.

(** C1, amended, at [Sample.conditions] and [Sample.shown]: the field
    [archived] of the sample record is false. *)
Lemma recordUpdate_conditions_witness :
  (hideIf (processSchema Sample.conditions) = Some "archived"
   /\ attrs (st_widget
               (exec (recordUpdate (E:=Sample.externals) Sample.conditions
                        false false false Sample.record) Sample.fresh))
        !! "hidden" = Some (Js.Bool false))
  /\ (showIf (processSchema Sample.shown) = Some "archived"
      /\ Js.truthy_str (hideIf (processSchema Sample.shown)) = false
      /\ attrs (st_widget
                  (exec (recordUpdate (E:=Sample.externals) Sample.shown
                           false false false Sample.record) Sample.fresh))
           !! "hidden" = Some (Js.Bool true)).
Proof.
  split.
  - split; [reflexivity|].
    apply (proj1 (recordUpdate_conditions (E:=Sample.externals) Sample.conditions
                    false false false Sample.record Sample.fresh) "archived");
      [reflexivity|discriminate].
  - split; [reflexivity|]. split; [reflexivity|].
    apply (proj1 (proj2 (recordUpdate_conditions (E:=Sample.externals) Sample.shown
                           false false false Sample.record Sample.fresh))
             "archived");
      [reflexivity|discriminate|reflexivity].
Defined.

(** C2 fails as first stated: a hidden widget with a render property is
    rendered by it. *)
Lemma hidden_widget_rendered_by_its_function :
  Js.truthy (Js.prop (attrs Sample.hidden_state) "hidden") = true
  /\ FormWidget Sample.rendered Sample.hidden_state = Custom 1
  /\ FormWidget Sample.rendered Sample.hidden_state <> Nothing.
Proof. split; [reflexivity|]. split; [reflexivity|discriminate]. Qed.

(** C2, amended, at a hidden widget, at a readonly field without viewer
    nor editor, and at a widget with a render property. *)
Lemma FormWidget_dispatch_witness :
  (p_render Sample.plain = None
   /\ Js.truthy (Js.prop (attrs Sample.hidden_state) "hidden") = true
   /\ FormWidget Sample.plain Sample.hidden_state = Nothing)
  /\ (Js.truthy (Js.prop (attrs Sample.readonly_state) "hidden") = false
      /\ viewer (p_schema Sample.plain) = None
      /\ editor (p_schema Sample.plain) = None
      /\ FormWidget Sample.plain Sample.readonly_state
         = FormItem (valueAtomOf (p_schema Sample.plain)))
  /\ FormWidget Sample.rendered Sample.hidden_state = Custom 1.
Proof.
  split; [|split].
  - split; [reflexivity|]. split; [reflexivity|].
    apply (proj1 (proj2 (FormWidget_dispatch Sample.plain Sample.hidden_state)
                    eq_refl)).
    reflexivity.
  - split; [reflexivity|]. split; [reflexivity|]. split; [reflexivity|].
    destruct (proj2 (proj2 (FormWidget_dispatch Sample.plain Sample.readonly_state)
                       eq_refl)) as (_ & _ & Hitem); [discriminate|].
    apply Hitem. split.
    + intros (Hviewer & _). destruct Hviewer as [v Hv]. discriminate Hv.
    + intros [(Heditor & _)|((e & He & _) & _)].
      * destruct Heditor as [e He]. discriminate He.
      * discriminate He.
  - apply (proj1 (FormWidget_dispatch Sample.rendered Sample.hidden_state) 1%positive).
    reflexivity.
Defined.

(** C3 fails as first stated: when the validation reports an [invalid]
    error of its own, the one the widget had before is not kept, the one of
    the validation stands in its place. *)
Lemma invalid_error_replaced :
  errors (st_widget Sample.failed) = Some {[ "invalid" := "Name is invalid" ]}
  /\ @validate Cases.rejecting (st_value Sample.failed) Sample.shown
       (attrs (st_widget Sample.failed)) (st_record Sample.failed)
     = Some {[ "invalid" := "Value is not allowed" ]}
  /\ errors (st_widget (exec (valueCheck (E:=Cases.rejecting) Sample.shown)
                          Sample.failed))
     = Some {[ "invalid" := "Value is not allowed" ]}
  /\ writes (valueCheck (E:=Cases.rejecting) Sample.shown) Sample.failed
     = [ SetWidget
           (with_errors (st_widget Sample.failed)
              (Some {[ "invalid" := "Value is not allowed" ]})) ].
Proof. repeat split; by vm_compute. Qed.

(** C3, amended, at a required field without value whose validity
    expression failed before: the field is reported as required, and still
    as invalid. *)
Lemma valueCheck_merges_and_writes_on_change_witness :
  exists new : option (gmap string string),
    default ∅ new !! "required" = Some "Field is required"
    /\ default ∅ new !! "invalid" = Some "Name is invalid".
Proof.
  destruct (valueCheck_merges_and_writes_on_change (E:=Sample.externals)
              Sample.shown Sample.failed) as (new & Hfound & _ & Hinvalid & _).
  exists new. split.
  - apply Hfound. reflexivity.
  - apply Hinvalid; [reflexivity|discriminate|reflexivity].
Defined.

(** C4 fails as first stated: a panel has no value atom, and the record
    update sets no value for its [bind] expression. *)
Lemma bind_of_panel_sets_no_value :
  bind Sample.bound_panel = Some "fullName"
  /\ Js.nullish (@parseAngularExp Sample.externals "fullName"
                   (createContext (E:=Sample.externals) false false false
                      Sample.record)) Js.Null = Js.Str "Jane Doe"
  /\ st_value (exec (recordUpdate (E:=Sample.externals) Sample.bound_panel
                       false false false Sample.record) Sample.fresh)
     = Js.Undefined
  /\ writes (recordUpdate (E:=Sample.externals) Sample.bound_panel
               false false false Sample.record) Sample.fresh = [].
Proof. repeat split; by vm_compute. Qed.

(** C4, amended, at a field bound to the name of the record. *)
Lemma recordUpdate_bind_witness :
  (bind Sample.bound_field = Some "fullName" /\ "fullName" <> ""
   /\ isField Sample.bound_field = true)
  /\ exists (isDirty : bool) (ws : list Write),
       st_value (exec (recordUpdate (E:=Sample.externals) Sample.bound_field
                         false false false Sample.record) Sample.fresh)
       = Js.Str "Jane Doe"
       /\ writes (recordUpdate (E:=Sample.externals) Sample.bound_field
                    false false false Sample.record) Sample.fresh
          = SetValue (Js.Str "Jane Doe") false isDirty :: ws
       /\ isDirty = false.
Proof.
  split; [split; [reflexivity|split; [discriminate|reflexivity]]|].
  destruct (recordUpdate_bind (E:=Sample.externals) Sample.bound_field
              false false false Sample.record Sample.fresh "fullName"
              eq_refl ltac:(discriminate) eq_refl)
    as (isDirty & ws & Hvalue & Hwrites & _ & Hfirst & _).
  exists isDirty, ws. split; [exact Hvalue|]. split; [exact Hwrites|].
  apply Hfirst. reflexivity.
Defined.

(** C5 at [Sample.conditions], whose validity expression is false on the
    sample record. *)
Lemma validIf_sets_invalid_witness :
  (validIf Sample.conditions = Some "archived" /\ "archived" <> "")
  /\ exists errs : gmap string string,
       errors (st_widget
                 (exec (recordUpdate (E:=Sample.externals) Sample.conditions
                          false false false Sample.record) Sample.fresh))
       = Some errs
       /\ errs !! "invalid" = Some "{0} is invalid".
Proof.
  split; [split; [reflexivity|discriminate]|].
  destruct (validIf_sets_invalid (E:=Sample.externals) Sample.conditions
              false false false Sample.record Sample.fresh "archived"
              eq_refl ltac:(discriminate))
    as [(errs & Herrs & Hfalsy & _) _].
  exists errs. split; [exact Herrs|]. apply Hfalsy. reflexivity.
Defined.

(** C6 at a field without context, left as it is, and at a JSON field of
    a context with all three conditions. *)
Lemma processSchema_context_field_witness :
  processSchema Sample.shown = Sample.shown
  /\ hideIf (processSchema Sample.context_all) = None
  /\ showIf (processSchema Sample.context_all)
     = Some "($record.ctx.id === 1) && (a) && !(b)"
  /\ requiredIf (processSchema Sample.context_all)
     = Some "($record.ctx.id === 1) && (c)".
Proof.
  split.
  - apply (proj1 (processSchema_context_field Sample.shown)). left. reflexivity.
  - destruct (proj2 (processSchema_context_field Sample.context_all))
      as (field & value & Hfield & Hvalue & Hhide & Hshow & Hrequired & _).
    { intros [Ha|[Ha|[Ha|[Ha _]]]]; discriminate Ha. }
    injection Hfield as <-. injection Hvalue as <-.
    split; [exact Hhide|]. split; [exact Hshow|].
    apply Hrequired. right. discriminate.
Defined.

(** C7 at a widget without attributes, whose [hidden] is set. *)
Lemma handleCondition_writes_on_change_only_witness :
  Js.prop (attrs (st_widget Sample.fresh)) "hidden" = Js.Undefined
  /\ attrs (st_widget
              (exec (handleCondition (E:=Sample.externals) Sample.record
                       "hidden" "true" false) Sample.fresh))
       !! "hidden" = Some (Js.Bool true)
  /\ attrs (st_widget
              (exec (handleCondition (E:=Sample.externals) Sample.record
                       "hidden" "true" false) Sample.fresh))
       !! "title" = None.
Proof.
  split; [reflexivity|].
  destruct (proj2 (proj2 (handleCondition_writes_on_change_only
                            (E:=Sample.externals) Sample.record
                            "hidden" "true" false Sample.fresh)))
    as (_ & Hset & Hother & _); [discriminate|].
  split; [exact Hset|]. apply (Hother "title"). discriminate.
Defined.

(** C9 at the dial code of France, alone and followed by a number. *)
Lemma dial_code_alone_is_empty_witness :
  Phone.target_value (Phone.onChange "+33" Sample.france) = ""
  /\ Phone.target_value (Phone.onBlur "+33" Sample.france) = ""
  /\ Phone.target_value (Phone.onChange "+33612345678" Sample.france)
     = "+33612345678".
Proof.
  split; [|split].
  - apply (proj1 (dial_code_alone_is_empty "+33" Sample.france)). reflexivity.
  - apply (proj1 (dial_code_alone_is_empty "+33" Sample.france)). reflexivity.
  - apply (proj2 (dial_code_alone_is_empty "+33612345678" Sample.france)).
    discriminate.
Defined.


(** ** Further properties of the subscriber *)

Lemma prop_lookup (o : gmap string Js.value) (k : string) (v : Js.value) :
  o !! k = Some v -> Js.prop o k = v.
Proof. unfold Js.prop. by intros ->. Qed.

Section SubscriberProperties.

Context {E : Externals}.
Local Open Scope list_scope.
Local Open Scope atom_scope.

Lemma processSchema_keeps_permissions (schema : Schema) :
  let p := processSchema schema in
  canNew p = canNew schema /\ canEdit p = canEdit schema
  /\ canView p = canView schema /\ canSave p = canSave schema
  /\ canCopy p = canCopy schema /\ canRemove p = canRemove schema
  /\ canDelete p = canDelete schema /\ canArchive p = canArchive schema
  /\ canAttach p = canAttach schema /\ canSelect p = canSelect schema.
Proof.
  simpl. destruct (processSchema_cases schema) as [->|(a & c & ->)]; by repeat split.
Qed.

(** The attribute a statement of the subscriber computes, however many
    statements on other attributes follow it. *)
Ltac reach_step He Hne :=
  unfold onRecord; rewrite !exec_seq;
  repeat first [ rewrite step_cond_other by done | rewrite step_valid_attrs ];
  by rewrite (step_cond_sets _ _ _ _ _ _ He Hne).

Lemma onRecord_permissions (p : Schema) (valueAtom : option ValueAtom)
    (readonly required popup : bool) (record : gmap string Js.value) (st : Store) :
  let ctx := createContext readonly required popup record in
  let after :=
    attrs (st_widget (exec (onRecord p valueAtom readonly required popup record) st)) in
  let computed (attr : string) (e : option string) :=
    forall expr, e = Some expr -> expr <> "" ->
      after !! attr = Some (Js.Bool (Js.truthy (parseExpression expr ctx))) in
  computed "canNew" (canNew p) /\ computed "canEdit" (canEdit p)
  /\ computed "canView" (canView p) /\ computed "canSave" (canSave p)
  /\ computed "canCopy" (canCopy p) /\ computed "canRemove" (canRemove p)
  /\ computed "canDelete" (canDelete p) /\ computed "canArchive" (canArchive p)
  /\ computed "canAttach" (canAttach p) /\ computed "canSelect" (canSelect p).
Proof.
  simpl. repeat split; intros expr He Hne; reach_step He Hne.
Qed.

(** X1. After each record update, each of the attributes [canNew],
    [canEdit], [canView], [canSave], [canCopy], [canRemove], [canDelete],
    [canArchive], [canAttach] and [canSelect] for which the schema has an
    expression holds the boolean value of that expression on the context of
    the record. *)
Theorem recordUpdate_permissions (schema : Schema) (readonly required popup : bool)
    (record : gmap string Js.value) (st : Store) :
  let ctx := createContext readonly required popup record in
  let after :=
    attrs (st_widget (exec (recordUpdate schema readonly required popup record) st)) in
  let computed (attr : string) (e : option string) :=
    forall expr, e = Some expr -> expr <> "" ->
      after !! attr = Some (Js.Bool (Js.truthy (parseExpression expr ctx))) in
  computed "canNew" (canNew schema) /\ computed "canEdit" (canEdit schema)
  /\ computed "canView" (canView schema) /\ computed "canSave" (canSave schema)
  /\ computed "canCopy" (canCopy schema) /\ computed "canRemove" (canRemove schema)
  /\ computed "canDelete" (canDelete schema)
  /\ computed "canArchive" (canArchive schema)
  /\ computed "canAttach" (canAttach schema)
  /\ computed "canSelect" (canSelect schema).
Proof.
  intros ctx after computed. subst after computed. cbv beta.
  rewrite recordUpdate_onRecord.
  destruct (processSchema_keeps_permissions schema)
    as (<- & <- & <- & <- & <- & <- & <- & <- & <- & <-).
  apply onRecord_permissions.
Qed.

Lemma widget_frame_refl (st : Store) : widget_frame st st.
Proof. by repeat split. Qed.

Lemma widget_frame_trans (st1 st2 st3 : Store) :
  widget_frame st1 st2 -> widget_frame st2 st3 -> widget_frame st1 st3.
Proof.
  intros (Hr1 & Hs1 & Ha1) (Hr2 & Hs2 & Ha2). split; [congruence|].
  split; [congruence|]. intros k Hk. by rewrite Ha2, Ha1.
Qed.

Lemma step_cond_widget_frame (e : option string) (ctx : DataContext)
    (attr : string) (negate : bool) (st : Store) :
  attr ∈ conditional_attributes ->
  widget_frame st
    (exec (when_str e (fun expr => handleCondition ctx attr expr negate)) st).
Proof.
  intros Hattr. rewrite exec_when_str.
  destruct e as [s|]; [|apply widget_frame_refl].
  destruct (Js.truthy_str _); [|apply widget_frame_refl].
  destruct (handleCondition_frame ctx attr s negate st) as (_ & Hrest & _ & Hrec).
  split; [done|]. split; [done|]. intros k Hk.
  apply handleCondition_other. by intros ->.
Qed.

Lemma step_valid_widget_frame (e : option string) (ctx : DataContext) (st : Store) :
  widget_frame st (exec (when_str e (fun expr => handleValidation ctx expr)) st).
Proof.
  rewrite exec_when_str. destruct e as [s|]; [|apply widget_frame_refl].
  destruct (Js.truthy_str _); [|apply widget_frame_refl].
  destruct (handleValidation_frame ctx s st) as (Hattrs & Hrest & _ & Hrec).
  split; [done|]. split; [done|]. intros k _. by rewrite Hattrs.
Qed.

Lemma onRecord_widget_frame (p : Schema) (valueAtom : option ValueAtom)
    (readonly required popup : bool) (record : gmap string Js.value) (st : Store) :
  widget_frame
    (exec (when_str (bind p)
             (fun bind => handleBind valueAtom
                  (createContext readonly required popup record) bind)) st)
    (exec (onRecord p valueAtom readonly required popup record) st).
Proof.
  unfold onRecord. rewrite !exec_seq.
  repeat (eapply widget_frame_trans;
          [|first [ apply step_cond_widget_frame; unfold conditional_attributes;
                    by repeat constructor
                  | apply step_valid_widget_frame ]]).
  apply widget_frame_refl.
Qed.

(** [handleBind] leaves the widget state alone, the statements after it the
    remaining properties and the attributes that are not computed. *)
Lemma onRecord_widget_kept (p : Schema) (valueAtom : option ValueAtom)
    (readonly required popup : bool) (record : gmap string Js.value) (st : Store) :
  let st' := exec (onRecord p valueAtom readonly required popup record) st in
  rest (st_widget st') = rest (st_widget st)
  /\ forall k, k ∉ conditional_attributes ->
       attrs (st_widget st') !! k = attrs (st_widget st) !! k.
Proof.
  destruct (onRecord_widget_frame p valueAtom readonly required popup record st)
    as (_ & Hrest & Hattrs).
  rewrite step_bind_widget in Hrest, Hattrs. by split.
Qed.

Lemma onRecord_errors_kept (p : Schema) (valueAtom : option ValueAtom)
    (readonly required popup : bool) (record : gmap string Js.value) (st : Store) :
  Js.truthy_str (validIf p) = false ->
  errors (st_widget (exec (onRecord p valueAtom readonly required popup record) st))
  = errors (st_widget st).
Proof.
  intros Hv. unfold onRecord. rewrite !exec_seq, !step_cond_errors.
  rewrite (step_skip (validIf p)) by done.
  by rewrite !step_cond_errors, step_bind_widget.
Qed.

Lemma onRecord_value_kept (p : Schema) (valueAtom : option ValueAtom)
    (readonly required popup : bool) (record : gmap string Js.value) (st : Store) :
  Js.truthy_str (bind p) = false \/ valueAtom = None ->
  widget_writes_only st
    (exec (onRecord p valueAtom readonly required popup record) st).
Proof.
  intros Hno.
  pose proof (onRecord_after_bind p valueAtom readonly required popup record st)
    as Hafter.
  assert (exec (when_str (bind p)
                  (fun bind => handleBind valueAtom
                       (createContext readonly required popup record) bind)) st
          = st) as Hskip.
  { destruct Hno as [Hb| ->]; [by apply step_skip|].
    rewrite exec_when_str. destruct (bind p); [|done].
    by destruct (Js.truthy_str _). }
  by rewrite Hskip in Hafter.
Qed.

(** X2. A record update changes neither the remaining properties of the
    widget state nor any attribute but the fourteen the subscriber computes;
    it leaves the errors alone when the schema has no [validIf]; when the
    schema has no [bind] or is not field-like it sets no value, so that the
    value and the record of the form are left alone and all its writes are
    writes of the widget atom. *)
Theorem recordUpdate_frame (schema : Schema) (readonly required popup : bool)
    (record : gmap string Js.value) (st : Store) :
  let st' := exec (recordUpdate schema readonly required popup record) st in
  rest (st_widget st') = rest (st_widget st)
  /\ (forall k, k ∉ conditional_attributes ->
        attrs (st_widget st') !! k = attrs (st_widget st) !! k)
  /\ (Js.truthy_str (validIf schema) = false ->
      errors (st_widget st') = errors (st_widget st))
  /\ (Js.truthy_str (bind schema) = false \/ isField schema = false ->
      st_value st' = st_value st
      /\ st_record st' = st_record st
      /\ Forall is_widget_write
           (writes (recordUpdate schema readonly required popup record) st)).
Proof.
  intros st'. subst st'. unfold writes. rewrite recordUpdate_onRecord.
  destruct (onRecord_widget_kept (processSchema schema) (valueAtomOf schema)
              readonly required popup record st) as (Hrest & Hattrs).
  destruct (processSchema_keeps schema) as (Hbind & _ & _ & Hvalid).
  split; [done|]. split; [done|]. split.
  - intros Hv. apply onRecord_errors_kept. by rewrite Hvalid.
  - intros Hno.
    assert (Js.truthy_str (bind (processSchema schema)) = false
            \/ valueAtomOf schema = None) as Hno'.
    { destruct Hno as [Hb|Hf]; [left; by rewrite Hbind|right].
      unfold valueAtomOf. by rewrite Hf. }
    destruct (onRecord_value_kept (processSchema schema) (valueAtomOf schema)
                readonly required popup record st Hno')
      as (Hvalue & ws & Hlog & Hws).
    split; [done|]. split; [|by rewrite Hlog, drop_app_length].
    destruct (onRecord_widget_frame (processSchema schema) (valueAtomOf schema)
                readonly required popup record st) as (-> & _).
    destruct Hno' as [Hb| ->]; [by rewrite step_skip|].
    rewrite exec_when_str. destruct (bind _) as [b|]; [|done].
    by destruct (Js.truthy_str (Some b)).
Qed.

(** *** A later update on which the expressions have the same values *)

















End SubscriberProperties.

(** ** Further properties of the dispatch *)

Lemma FormWidget_nothing (props : FormWidgetProps) (state : WidgetState) :
  p_render props = None ->
  FormWidget props state = Nothing
  <-> Js.truthy (Js.prop (attrs state) "hidden") = true.
Proof.
  intros Hno. unfold FormWidget. rewrite Hno.
  destruct (Js.truthy (Js.prop (attrs state) "hidden")); [done|].
  split; [|done]. repeat (match goal with |- context [if ?b then _ else _] =>
                            destruct b end); done.
Qed.

Lemma FormWidget_viewer (props : FormWidgetProps) (state : WidgetState)
    (valueAtom : option ValueAtom) :
  FormWidget props state = FieldViewer valueAtom ->
  is_Some (viewer (p_schema props)) /\ isField (p_schema props) = true
  /\ Js.truthy (Js.nullish (Js.prop (attrs state) "canView") (Js.Bool true)) = true
  /\ Js.truthy (Js.prop (attrs state) "readonly")
     || Js.truthy_bool (p_readonly props) = true.
Proof.
  unfold FormWidget. destruct (p_render props); [done|].
  destruct (Js.truthy (Js.prop (attrs state) "hidden")); [done|].
  destruct (_ && _ && _ && _) eqn:Hview.
  - intros _. apply andb_true_iff in Hview as [Hview ?].
    apply andb_true_iff in Hview as [Hview ?].
    apply andb_true_iff in Hview as [Hv Ha].
    apply bool_decide_eq_true in Hv, Ha. repeat split; try done.
    unfold valueAtomOf in Ha. destruct (isField _); [done|]. by destruct Ha.
  - match goal with |- (if ?b then _ else _) = _ -> _ => by destruct b end.
Qed.

Lemma FormWidget_editor (props : FormWidgetProps) (state : WidgetState)
    (valueAtom : option ValueAtom) :
  let readonly :=
    Js.truthy (Js.prop (attrs state) "readonly")
    || Js.truthy_bool (p_readonly props) in
  FormWidget props state = FieldEditor valueAtom ->
  isField (p_schema props) = true
  /\ ((readonly = false
       /\ Js.truthy (Js.nullish (Js.prop (attrs state) "canEdit") (Js.Bool true))
          = true)
      \/ (readonly = true
          /\ Js.truthy (Js.nullish (Js.prop (attrs state) "canView") (Js.Bool true))
             = true)).
Proof.
  simpl. unfold FormWidget. destruct (p_render props); [done|].
  destruct (Js.truthy (Js.prop (attrs state) "hidden")); [done|].
  destruct (_ && _ && _ && _); [done|].
  match goal with |- (if ?b then _ else _) = _ -> _ =>
    destruct b eqn:Hedit; [|done] end.
  intros _.
  assert (bool_decide (is_Some (valueAtomOf (p_schema props))) = true
          -> isField (p_schema props) = true) as Hfield.
  { intros Ha%bool_decide_eq_true. unfold valueAtomOf in Ha.
    destruct (isField _); [done|]. by destruct Ha. }
  apply orb_true_iff in Hedit as [Hedit|Hedit].
  - apply andb_true_iff in Hedit as [Hedit Hro].
    apply andb_true_iff in Hedit as [Hedit Hce].
    apply andb_true_iff in Hedit as [_ Ha].
    split; [by apply Hfield|]. left. by apply negb_true_iff in Hro.
  - apply andb_true_iff in Hedit as [Hedit Hro].
    apply andb_true_iff in Hedit as [Hedit Hcv].
    apply andb_true_iff in Hedit as [_ Ha].
    split; [by apply Hfield|]. by right.
Qed.

(** X5. For a schema that is not field-like FormWidget renders neither a
    viewer nor an editor, whatever the schema and the attributes say: it
    renders the render property, nothing, or the plain form item without
    value atom. *)
Theorem FormWidget_without_value_atom (props : FormWidgetProps) (state : WidgetState) :
  isField (p_schema props) = false ->
  (exists Comp, FormWidget props state = Custom Comp)
  \/ FormWidget props state = Nothing
  \/ FormWidget props state = FormItem None.
Proof.
  intros Hf. destruct (FormWidget props state) as [c| |va|va|va] eqn:Hw.
  - left. by exists c.
  - by right; left.
  - apply FormWidget_viewer in Hw as (_ & Hfield & _). congruence.
  - apply FormWidget_editor in Hw as (Hfield & _). congruence.
  - right; right. unfold FormWidget, valueAtomOf in Hw. rewrite Hf in Hw.
    destruct (p_render props); [done|].
    repeat (match type of Hw with context [if ?b then _ else _] =>
              destruct b end; try done).
Qed.

Lemma FormWidget_item (props : FormWidgetProps) (state : WidgetState)
    (valueAtom : option ValueAtom) :
  FormWidget props state = FormItem valueAtom ->
  Js.truthy (Js.prop (attrs state) "hidden") = false
  /\ valueAtom = valueAtomOf (p_schema props).
Proof.
  unfold FormWidget. destruct (p_render props); [done|].
  destruct (Js.truthy (Js.prop (attrs state) "hidden")); [done|].
  repeat (match goal with |- (if ?b then _ else _) = _ -> _ =>
            destruct b end; try done).
  by intros [= <-].
Qed.

(** X6. The plain form item FormWidget falls back on is never empty: the
    hidden widget was rendered as nothing by FormWidget already.  It shows
    the widget [useWidget] found, wrapped as a form field exactly when the
    schema is field-like, or the unknown widget when none was found; the
    widget is readonly exactly when FormWidget took it as readonly. *)
Theorem form_item_below_FormWidget (useWidget : Schema -> option positive)
    (props : FormWidgetProps) (state : WidgetState) (item : ItemElement) :
  let schema := p_schema props in
  render useWidget props state = Below item ->
  item <> ItemNothing
  /\ (useWidget schema = None ->
      item = ItemUnknown (Js.prop (extra schema) "widget"))
  /\ (forall Comp, useWidget schema = Some Comp ->
        exists readonly,
          Js.truthy readonly
          = Js.truthy (Js.prop (attrs state) "readonly")
            || Js.truthy_bool (p_readonly props)
          /\ (isField schema = true ->
              item = ItemField Comp schema readonly (createValueAtom schema))
          /\ (isField schema = false -> item = ItemWidget Comp schema readonly)).
Proof.
  intros schema. unfold render.
  destruct (FormWidget props state) as [c| |va|va|va] eqn:Hw; try done.
  apply FormWidget_item in Hw as [Hshown ->]. fold schema.
  intros [= <-]. unfold Item.FormItem. rewrite Hshown.
  split; [|split].
  - by destruct (useWidget schema), (valueAtomOf schema).
  - by intros ->.
  - intros Comp ->.
    exists (match p_readonly props with
            | Some true => Js.Bool true
            | _ => Js.prop (attrs state) "readonly"
            end).
    split; [|split].
    + destruct (p_readonly props) as [[]|]; simpl;
        by rewrite ?orb_true_r, ?orb_false_r.
    + intros Hf. unfold valueAtomOf. by rewrite Hf.
    + intros Hf. unfold valueAtomOf. by rewrite Hf.
Qed.

Lemma invalid_true (w : WidgetState) :
  invalid w = true
  <-> exists k msg, default ∅ (errors w) !! k = Some msg /\ msg <> "".
Proof.
  unfold invalid. rewrite negb_true_iff, Nat.eqb_neq. split.
  - intros Hlen.
    destruct (List.filter _ _) as [|msg l] eqn:Hfilter; [done|].
    assert (In msg (List.filter (fun message => negb (String.eqb message ""))
                      (snd <$> map_to_list (default ∅ (errors w))))) as Hin.
    { rewrite Hfilter. by left. }
    apply filter_In in Hin as [Hin Hmsg].
    apply list_elem_of_In, list_elem_of_fmap in Hin as ([k m] & -> & Hin).
    apply elem_of_map_to_list in Hin. exists k, m. split; [done|].
    simpl in Hmsg. intros ->. done.
  - intros (k & msg & Hk & Hmsg) Hlen.
    assert (In msg (List.filter (fun message => negb (String.eqb message ""))
                      (snd <$> map_to_list (default ∅ (errors w))))) as Hin.
    { apply filter_In. split.
      - apply list_elem_of_In, list_elem_of_fmap. exists (k, msg).
        split; [done|]. by apply elem_of_map_to_list.
      - by destruct (String.eqb_spec msg ""). }
    by destruct (List.filter _ _).
Qed.

(** ** Further properties of what is shown after an update *)

Section DisplayProperties.

Context {E : Externals}.
Local Open Scope list_scope.
Local Open Scope atom_scope.

(** X7. A widget rendered by the form builder itself is rendered as
    nothing after a record update exactly when the [hideIf] expression of the
    processed schema is truthy on the record or, without [hideIf], exactly
    when its [showIf] expression is falsy. *)
Theorem hidden_after_update (schema : Schema) (readonly required popup : bool)
    (record : gmap string Js.value) (st : Store) (isReadonly : option bool) :
  let p := processSchema schema in
  let ctx := createContext readonly required popup record in
  let state :=
    st_widget (exec (recordUpdate schema readonly required popup record) st) in
  let props :=
    {| p_schema := schema; p_render := None; p_readonly := isReadonly |} in
  (forall expr, hideIf p = Some expr -> expr <> "" ->
     (FormWidget props state = Nothing
      <-> Js.truthy (parseExpression expr ctx) = true))
  /\ (forall expr, showIf p = Some expr -> expr <> "" ->
      Js.truthy_str (hideIf p) = false ->
      (FormWidget props state = Nothing
       <-> Js.truthy (parseExpression expr ctx) = false)).
Proof.
  intros p ctx state props. subst state.
  split; intros expr He Hne.
  - rewrite FormWidget_nothing by done. rewrite recordUpdate_onRecord.
    by rewrite (prop_lookup _ _ _ (onRecord_hideIf _ _ _ _ _ _ _ _ He Hne)).
  - intros Hh. rewrite FormWidget_nothing by done. rewrite recordUpdate_onRecord.
    rewrite (prop_lookup _ _ _ (onRecord_showIf _ _ _ _ _ _ _ _ He Hne Hh)).
    simpl. by rewrite negb_true_iff.
Qed.

(** X8. After a record update on which the [canView] expression of the
    schema is falsy, FormWidget renders no viewer, and an editor for a widget
    that is not readonly only; when its [canEdit] expression is falsy, it
    renders an editor for a readonly widget only, as its viewer. *)
Theorem permissions_after_update (schema : Schema) (readonly required popup : bool)
    (record : gmap string Js.value) (st : Store) (isReadonly : option bool)
    (valueAtom : option ValueAtom) :
  let ctx := createContext readonly required popup record in
  let state :=
    st_widget (exec (recordUpdate schema readonly required popup record) st) in
  let props :=
    {| p_schema := schema; p_render := None; p_readonly := isReadonly |} in
  let is_readonly :=
    Js.truthy (Js.prop (attrs state) "readonly") || Js.truthy_bool isReadonly in
  (forall expr, canView schema = Some expr -> expr <> "" ->
     Js.truthy (parseExpression expr ctx) = false ->
     FormWidget props state <> FieldViewer valueAtom
     /\ (FormWidget props state = FieldEditor valueAtom -> is_readonly = false))
  /\ (forall expr, canEdit schema = Some expr -> expr <> "" ->
      Js.truthy (parseExpression expr ctx) = false ->
      FormWidget props state = FieldEditor valueAtom -> is_readonly = true).
Proof.
  intros ctx state props is_readonly.
  destruct (recordUpdate_onRecord schema readonly required popup record st).
  destruct (onRecord_permissions (processSchema schema) (valueAtomOf schema)
              readonly required popup record st)
    as (_ & Hedit & Hview & _).
  destruct (processSchema_keeps_permissions schema) as (_ & Hce & Hcv & _).
  rewrite <- recordUpdate_onRecord in Hedit, Hview. fold state ctx in Hedit, Hview.
  split; intros expr He Hne Hfalse.
  - rewrite <- Hcv in He. pose proof (Hview expr He Hne) as Hattr.
    rewrite Hfalse in Hattr. apply prop_lookup in Hattr. split.
    + intros (_ & _ & Hcan & _)%FormWidget_viewer. rewrite Hattr in Hcan. done.
    + intros (_ & [[Hro _]|[_ Hcan]])%FormWidget_editor; [done|].
      rewrite Hattr in Hcan. done.
  - rewrite <- Hce in He. pose proof (Hedit expr He Hne) as Hattr.
    rewrite Hfalse in Hattr. apply prop_lookup in Hattr.
    intros (_ & [[_ Hcan]|[Hro _]])%FormWidget_editor; [|done].
    rewrite Hattr in Hcan. done.
Qed.

(** X9. After a record update of a schema with a [validIf] expression the
    field is shown invalid exactly when the expression is falsy and the
    message is not empty, or one of the other errors it had has a message. *)
Theorem invalid_after_validIf (schema : Schema) (readonly required popup : bool)
    (record : gmap string Js.value) (st : Store) (expr : string) :
  validIf schema = Some expr -> expr <> "" ->
  let ctx := createContext readonly required popup record in
  let message :=
    i18n_get "{0} is invalid" (Js.prop (attrs (st_widget st)) "title") in
  let state :=
    st_widget (exec (recordUpdate schema readonly required popup record) st) in
  invalid state = true
  <-> (Js.truthy (parseExpression expr ctx) = false /\ message <> "")
      \/ (exists k msg, k <> "invalid"
            /\ default ∅ (errors (st_widget st)) !! k = Some msg /\ msg <> "").
Proof.
  intros He Hne ctx message state. rewrite invalid_true. subst state.
  rewrite recordUpdate_onRecord.
  rewrite (onRecord_errors (processSchema schema) _ _ _ _ _ _ expr); [|by
    destruct (processSchema_keeps schema) as (_ & _ & _ & ->)|done].
  fold ctx. simpl. split.
  - intros (k & msg & Hk & Hmsg). destruct (decide (k = "invalid")) as [->|Hki].
    + left. rewrite validated_invalid in Hk. fold ctx message in Hk.
      destruct (Js.truthy _); [done|]. by simplify_eq.
    + right. rewrite validated_other in Hk by done. by exists k, msg.
  - intros [[Hfalse Hmsg]|(k & msg & Hki & Hk & Hmsg)].
    + exists "invalid", message. split; [|done].
      rewrite validated_invalid. fold ctx. by rewrite Hfalse.
    + exists k, msg. split; [|done]. by rewrite validated_other.
Qed.

Lemma valueCheck_errors (schema : Schema) (st : Store) :
  let prev := st_widget st in
  let found := validate (st_value st) schema (attrs prev) (st_record st) in
  default ∅ (errors (st_widget (exec (valueCheck schema) st)))
  = match errors prev ≫= (.!! "invalid") with
    | Some msg =>
        if Js.truthy_str (Some msg)
        then default ∅ found ∪ {[ "invalid" := msg ]}
        else default ∅ found
    | None => default ∅ found
    end.
Proof.
  simpl. unfold valueCheck, exec, bindM. simpl.
  destruct (errors (st_widget st) ≫= _) as [msg|];
    [destruct (negb (String.eqb msg ""))|];
    case_bool_decide as Heq; simpl; done.
Qed.

(** X10. After [valueCheck] the field is shown invalid exactly when the
    validation found an error with a message, or found no [invalid] error
    while the widget had one with a message before. *)
Theorem invalid_after_valueCheck (schema : Schema) (st : Store) :
  let prev := st_widget st in
  let found :=
    default ∅ (validate (st_value st) schema (attrs prev) (st_record st)) in
  invalid (st_widget (exec (valueCheck schema) st)) = true
  <-> (exists k msg, found !! k = Some msg /\ msg <> "")
      \/ (found !! "invalid" = None
          /\ exists msg, errors prev ≫= (.!! "invalid") = Some msg /\ msg <> "").
Proof.
  intros prev found. rewrite invalid_true, valueCheck_errors. fold prev found.
  destruct (errors prev ≫= (.!! "invalid")) as [old|] eqn:Hold.
  - simpl. destruct (String.eqb_spec old "") as [->|Hne]; simpl.
    + split; [by left|]. intros [?|(_ & msg & ? & ?)]; [done|]. by simplify_eq.
    + split.
      * intros (k & msg & Hk & Hmsg).
        apply lookup_union_Some_raw in Hk as [Hk|[Hnone Hk]]; [left; by exists k, msg|].
        apply lookup_singleton_Some in Hk as [<- <-]. right. split; [done|].
        by exists old.
      * intros [(k & msg & Hk & Hmsg)|(Hnone & msg & ? & Hmsg)].
        -- exists k, msg. split; [|done]. by apply lookup_union_Some_l.
        -- simplify_eq. exists "invalid", msg. split; [|done].
           rewrite lookup_union_r by done. by rewrite lookup_singleton_eq.
  - split; [by left|]. intros [?|(_ & msg & ? & ?)]; done.
Qed.

End DisplayProperties.

(** ** Properties of the validity of the form and of the server error *)

Lemma valid_true (states : option (gmap string WidgetState)) (name : option string) :
  valid states name = true
  <-> forall k w, default ∅ states !! k = Some w ->
        from_option (fun n => k = n) True name ->
        default ∅ (errors w) = ∅.
Proof.
  unfold valid. rewrite negb_true_iff, <- not_true_iff_false, existsb_exists.
  split.
  - intros Hno k w Hk Hname.
    destruct (decide (default ∅ (errors w) = ∅)) as [|Hne]; [done|].
    destruct Hno. exists (k, w). split.
    + by apply list_elem_of_In, elem_of_map_to_list.
    + simpl. apply andb_true_iff. split.
      * destruct name as [n|]; [|done]. simpl in Hname. subst.
        apply String.eqb_refl.
      * apply negb_true_iff, Nat.eqb_neq. by rewrite map_size_empty_iff.
  - intros Hall ([k w] & Hin & Hbad).
    apply list_elem_of_In, elem_of_map_to_list in Hin.
    apply andb_true_iff in Hbad as [Hname Hsize]. simpl in *.
    apply negb_true_iff, Nat.eqb_neq in Hsize. apply Hsize.
    apply map_size_empty_iff, (Hall k w Hin).
    destruct name as [n|]; [|done]. simpl. by apply String.eqb_eq.
Qed.

(** X11. The form is valid as a whole exactly when no widget has an entry
    among its errors, and valid for a name exactly when the widget of that
    name, if there is one, has none; so the form is valid exactly when it is
    valid for every name.  A widget that is shown invalid makes the form
    invalid. *)
Theorem valid_form_and_widgets (states : option (gmap string WidgetState)) :
  (valid states None = true
   <-> forall k w, default ∅ states !! k = Some w -> default ∅ (errors w) = ∅)
  /\ (forall name,
        valid states (Some name) = true
        <-> forall w, default ∅ states !! name = Some w ->
              default ∅ (errors w) = ∅)
  /\ (valid states None = true <-> forall name, valid states (Some name) = true)
  /\ (forall k w, default ∅ states !! k = Some w -> invalid w = true ->
        valid states (Some k) = false /\ valid states None = false).
Proof.
  assert (valid states None = true
          <-> forall k w, default ∅ states !! k = Some w ->
                default ∅ (errors w) = ∅) as Hall.
  { rewrite valid_true. simpl. split.
    - intros Hv k w Hk. by apply (Hv k).
    - intros Hv k w Hk _. by apply (Hv k). }
  assert (forall name,
            valid states (Some name) = true
            <-> forall w, default ∅ states !! name = Some w ->
                  default ∅ (errors w) = ∅) as Hone.
  { intros name. rewrite valid_true. simpl. split.
    - intros Hv w Hk. by apply (Hv name).
    - intros Hv k w Hk ->. by apply Hv. }
  split; [done|]. split; [done|]. split.
  - rewrite Hall. split.
    + intros Hv name. apply Hone. intros w. apply Hv.
    + intros Hv k w Hk. by apply (proj1 (Hone k) (Hv k)).
  - intros k w Hk (key & msg & Hmsg & _)%invalid_true.
    assert (default ∅ (errors w) <> ∅) as Hne.
    { intros Hempty. rewrite Hempty in Hmsg. by rewrite lookup_empty in Hmsg. }
    split; apply not_true_is_false.
    + intros Hv. by apply Hne, (proj1 (Hone k) Hv).
    + intros Hv. by apply Hne, (proj1 Hall Hv k).
Qed.

Lemma serverError_cleared (key : string) (form : ServerErrors) :
  Js.truthy_str (serverError key form) = true ->
  serverError key
    {| statesByName :=
         alter (fun state =>
                  with_errors state
                    (Some (<["error" := ""]> (default ∅ (errors state)))))
           key (statesByName form);
       se_log := se_log form ++ [(key, "")] |}
  = Some "".
Proof.
  unfold serverError. simpl. rewrite lookup_alter_eq.
  destruct (statesByName form !! key) as [w|]; [|done]. simpl.
  intros _. by rewrite lookup_insert_eq.
Qed.

(** X12. [clearError] leaves the field without error of the server; it
    writes only when there was one, so that clearing twice is clearing once;
    it keeps every widget, every attribute and every other error, the error
    of the server staying among the errors with an empty message. *)
Theorem clearError_clears (schema : Schema) (form : ServerErrors) :
  let key := default "" (name schema) in
  let form' := clearError schema form in
  Js.truthy_str (serverError key form') = false
  /\ clearError schema form' = form'
  /\ (Js.truthy_str (serverError key form) = false -> form' = form)
  /\ (Js.truthy_str (serverError key form) = true ->
      se_log form' = (se_log form ++ [(key, "")])%list
      /\ serverError key form' = Some "")
  /\ (forall k, k <> key -> statesByName form' !! k = statesByName form !! k)
  /\ (forall w, statesByName form !! key = Some w ->
        exists w', statesByName form' !! key = Some w'
                   /\ attrs w' = attrs w /\ rest w' = rest w
                   /\ forall k, k <> "error" ->
                        default ∅ (errors w') !! k = default ∅ (errors w) !! k).
Proof.
  intros key form'. subst form'. unfold clearError. fold key.
  destruct (Js.truthy_str (serverError key form)) eqn:Hget.
  - pose proof (serverError_cleared key form Hget) as Hcleared.
    split; [by rewrite Hcleared|]. split.
    { fold key. by rewrite Hcleared. }
    split; [done|]. split; [done|]. split.
    + intros k Hk. simpl. by rewrite lookup_alter_ne.
    + intros w Hw. simpl. rewrite lookup_alter_eq, Hw. simpl.
      eexists. split; [done|]. split; [done|]. split; [done|].
      intros k Hk. simpl. by rewrite lookup_insert_ne.
  - split; [done|]. split; [by rewrite Hget|]. split; [done|]. split; [done|].
    split; [done|]. intros w Hw. by exists w.
Qed.

(** ** Properties of the context kept between records *)

Section MemoProperties.

Context {E : Externals}.

(** X13. As long as [popup] does not change, [createContext] with its
    references gives the context [createEvalContext] makes of the record and
    the modes it is called with, whatever it was called with before, and the
    references then hold that record, those modes and that context. *)
Theorem createContextRef_fresh (readonly required popup : bool) (refs : Refs)
    (record : gmap string Js.value) :
  cached popup refs ->
  let result := createContextRef readonly required popup refs record in
  fst result = createContext readonly required popup record
  /\ cached popup (snd result)
  /\ recordRef (snd result) = Some record
  /\ modeRef (snd result) = (readonly, required)
  /\ contextRef (snd result) = Some (fst result).
Proof.
  unfold cached, createContextRef, createContext. intros Hcached.
  destruct (contextRef refs) as [ctx|] eqn:Hctx; simpl.
  - destruct Hcached as (cachedRecord & Hrecord & ->).
    case_bool_decide as Hsame; simpl.
    + destruct (Bool.eqb_spec (fst (modeRef refs)) readonly) as [Hro|]; simpl.
      * destruct (Bool.eqb_spec (snd (modeRef refs)) required) as [Hrq|]; simpl.
        -- rewrite Hctx. assert (cachedRecord = record) as -> by congruence.
           rewrite Hro, Hrq. repeat split; try done.
           ++ by exists record.
           ++ destruct (modeRef refs). simpl in *. congruence.
        -- repeat split; try done. by exists record.
      * repeat split; try done. by exists record.
    + repeat split; try done. by exists record.
  - repeat split; try done. by exists record.
Qed.

End MemoProperties.

(** ** Further properties of the Phone widget *)

Lemma digit_not_dot (n : nat) : PhoneInput.digit n <> "."%char.
Proof.
  unfold PhoneInput.digit. intros Hd.
  pose proof (Nat.mod_upper_bound n 10 ltac:(lia)) as Hbound.
  apply (f_equal Ascii.nat_of_ascii) in Hd.
  rewrite Ascii.nat_ascii_embedding in Hd by lia.
  change (Ascii.nat_of_ascii ".") with 46 in Hd. lia.
Qed.

Lemma number_dots_lookup (s : string) (currentNumber i : nat) (c : ascii) :
  list_ascii_of_string s !! i = Some c ->
  list_ascii_of_string (PhoneInput.number_dots currentNumber s) !! i
  = Some (if Ascii.eqb c "."%char
          then PhoneInput.digit
                 (S (currentNumber
                     + length (filter (fun d => d = "."%char)
                                 (take i (list_ascii_of_string s)))))
          else c).
Proof.
  revert currentNumber i. induction s as [|d s IH]; intros k i; [done|].
  simpl. destruct i as [|i]; simpl.
  - intros [= ->]. destruct (Ascii.eqb c "."); simpl; [|done].
    by rewrite Nat.add_0_r.
  - intros Hc. destruct (Ascii.eqb_spec d ".") as [->|Hd]; simpl.
    + rewrite (IH (S k) i Hc). by rewrite Nat.add_succ_r.
    + rewrite (IH k i Hc). by rewrite filter_cons_False by done.
Qed.

Lemma list_ascii_length (s : string) :
  length (list_ascii_of_string s) = String.length s.
Proof. induction s as [|c s IH]; [done|]. simpl. by rewrite IH. Qed.

Lemma number_dots_length (s : string) (currentNumber : nat) :
  String.length (PhoneInput.number_dots currentNumber s) = String.length s.
Proof.
  revert currentNumber. induction s as [|d s IH]; intros k; [done|].
  simpl. destruct (Ascii.eqb d "."); simpl; by rewrite IH.
Qed.

Lemma replace_first_dot_length (s : string) :
  String.length (PhoneInput.replace_first_dot "6" s) = String.length s.
Proof.
  induction s as [|d s IH]; [done|]. simpl.
  destruct (Ascii.eqb d "."); simpl; by rewrite ?IH.
Qed.

(** The numbers of a format whose first dot was replaced by a 6. *)
Lemma number_dots_first_six (s : string) (currentNumber i : nat) (c : ascii) :
  list_ascii_of_string s !! i = Some c ->
  let before :=
    length (filter (fun d => d = "."%char) (take i (list_ascii_of_string s))) in
  list_ascii_of_string
    (PhoneInput.number_dots currentNumber (PhoneInput.replace_first_dot "6" s)) !! i
  = Some (if Ascii.eqb c "."%char
          then match before with
               | O => "6"%char
               | S _ => PhoneInput.digit (currentNumber + before)
               end
          else c).
Proof.
  revert i. induction s as [|d s IH]; intros i; [done|].
  simpl. destruct (Ascii.eqb_spec d ".") as [->|Hd].
  - simpl. destruct i as [|i]; simpl.
    + by intros [= <-].
    + intros Hc. rewrite (number_dots_lookup _ _ _ _ Hc).
      by rewrite Nat.add_succ_r.
  - simpl. destruct (Ascii.eqb_spec d ".") as [|_]; [done|].
    destruct i as [|i]; simpl.
    + intros [= <-]. by destruct (Ascii.eqb_spec d ".").
    + intros Hc. rewrite (IH i Hc). by rewrite filter_cons_False by done.
Qed.

(** X14. Without a placeholder of the schema, the placeholder is a plus
    sign, the dial code, a space and the numbers, which are as long as the
    format of the country (its default format, or nine dots when it has
    none): the characters of the format that are not dots stay in their
    place, and no dot is left.  For the mobile numbers of France (dial code
    33, a number type whose upper case is MOBILE) the first dot becomes 6 and
    the dots after it are numbered 1, 2, ... 9, 0, 1 and so on from the left;
    for every other number all the dots are numbered so, the first one
    being 1. *)
Theorem placeholder_numbers (toUpperCase : string -> string)
    (_placeholder placeholderNumberType : option string)
    (format : option PhoneInput.Format) (dialCode : string) :
  Js.truthy_str _placeholder = false ->
  let shape :=
    match default (PhoneInput.Plain (PhoneInput.dots 9)) format with
    | PhoneInput.Plain f | PhoneInput.Formats f _ => f
    end in
  let french_mobile :=
    dialCode = "33" /\ toUpperCase <$> placeholderNumberType = Some "MOBILE" in
  let dots_before (i : nat) :=
    length (filter (fun d => d = "."%char) (take i (list_ascii_of_string shape))) in
  exists numbers,
    PhoneInput.placeholder toUpperCase _placeholder placeholderNumberType
      format dialCode
    = "+" +:+ dialCode +:+ " " +:+ numbers
    /\ String.length numbers = String.length shape
    /\ (forall i c, list_ascii_of_string shape !! i = Some c ->
          c <> "."%char -> list_ascii_of_string numbers !! i = Some c)
    /\ (french_mobile ->
        forall i, list_ascii_of_string shape !! i = Some "."%char ->
          list_ascii_of_string numbers !! i
          = Some (match dots_before i with
                  | O => "6"%char
                  | S _ => PhoneInput.digit (dots_before i)
                  end))
    /\ (~ french_mobile ->
        forall i, list_ascii_of_string shape !! i = Some "."%char ->
          list_ascii_of_string numbers !! i
          = Some (PhoneInput.digit (S (dots_before i))))
    /\ "."%char ∉ list_ascii_of_string numbers.
Proof.
  intros Hno shape french_mobile dots_before.
  unfold PhoneInput.placeholder. rewrite Hno.
  exists (PhoneInput.number_dots 0
            (PhoneInput.phoneFormat toUpperCase placeholderNumberType format
               dialCode)).
  split; [done|]. unfold PhoneInput.phoneFormat. fold shape.
  destruct (String.eqb dialCode "33"
            && bool_decide (toUpperCase <$> placeholderNumberType = Some "MOBILE"))
    eqn:Hfrench.
  - apply andb_true_iff in Hfrench as [Hdial%String.eqb_eq Hmobile%bool_decide_eq_true].
    split; [by rewrite number_dots_length, replace_first_dot_length|].
    assert (forall i c, list_ascii_of_string shape !! i = Some c ->
              c <> "."%char ->
              list_ascii_of_string
                (PhoneInput.number_dots 0 (PhoneInput.replace_first_dot "6" shape))
                !! i = Some c) as Hkept.
    { intros i c Hc Hdot. rewrite (number_dots_first_six _ _ _ _ Hc).
      by destruct (Ascii.eqb_spec c "."). }
    assert (forall i, list_ascii_of_string shape !! i = Some "."%char ->
              list_ascii_of_string
                (PhoneInput.number_dots 0 (PhoneInput.replace_first_dot "6" shape))
                !! i
              = Some (match dots_before i with
                      | O => "6"%char
                      | S _ => PhoneInput.digit (dots_before i)
                      end)) as Hdots.
    { intros i Hc. by rewrite (number_dots_first_six _ _ _ _ Hc). }
    split; [done|]. split; [done|]. split; [by intros []|].
    intros Hin. apply list_elem_of_lookup in Hin as [i Hi].
    assert (i < length (list_ascii_of_string shape)) as Hlt.
    { apply lookup_lt_Some in Hi.
      by rewrite !list_ascii_length, number_dots_length,
           replace_first_dot_length in *. }
    destruct (lookup_lt_is_Some_2 _ _ Hlt) as [c Hc].
    destruct (Ascii.eqb_spec c ".") as [->|Hne].
    + rewrite (Hdots i Hc) in Hi. destruct (dots_before i); [done|].
      injection Hi as Hi. by apply digit_not_dot in Hi.
    + rewrite (Hkept i c Hc Hne) in Hi. injection Hi as Hi. by symmetry in Hi.
  - assert (~ french_mobile) as Hnot.
    { intros [Hdial Hmobile]. apply andb_false_iff in Hfrench as [Hd|Hm].
      - apply String.eqb_neq in Hd. done.
      - by apply bool_decide_eq_false in Hm. }
    split; [apply number_dots_length|].
    split.
    { intros i c Hc Hdot. rewrite (number_dots_lookup _ _ _ _ Hc).
      by destruct (Ascii.eqb_spec c "."). }
    split; [done|]. split.
    { intros _ i Hc. by rewrite (number_dots_lookup _ _ _ _ Hc). }
    intros Hin. apply list_elem_of_lookup in Hin as [i Hi].
    assert (i < length (list_ascii_of_string shape)) as Hlt.
    { apply lookup_lt_Some in Hi.
      by rewrite !list_ascii_length, number_dots_length in *. }
    destruct (lookup_lt_is_Some_2 _ _ Hlt) as [c Hc].
    rewrite (number_dots_lookup _ _ _ _ Hc) in Hi.
    destruct (Ascii.eqb_spec c ".") as [Heq|Hne].
    + injection Hi as Hi. by apply digit_not_dot in Hi.
    + injection Hi as Hi. by symmetry in Hi.
Qed.

Lemma number_dots_prefix (pre s : string) (currentNumber : nat) :
  "."%char ∉ list_ascii_of_string pre ->
  PhoneInput.number_dots currentNumber (pre +:+ s)
  = pre +:+ PhoneInput.number_dots currentNumber s.
Proof.
  induction pre as [|c pre IH]; [done|]. simpl. intros Hno.
  apply not_elem_of_cons in Hno as [Hc Hpre].
  destruct (Ascii.eqb_spec c "."); [done|]. by rewrite IH.
Qed.

Lemma replace_first_dot_prefix (digits pre s : string) :
  "."%char ∉ list_ascii_of_string pre ->
  PhoneInput.replace_first_dot digits (pre +:+ String "."%char s)
  = pre +:+ digits +:+ s.
Proof.
  induction pre as [|c pre IH]; [done|]. simpl. intros Hno.
  apply not_elem_of_cons in Hno as [Hc Hpre].
  destruct (Ascii.eqb_spec c "."); [done|]. by rewrite IH.
Qed.

(** X15. When the format of the country is [pre], a first dot and [post],
    the placeholder of a French mobile number (dial code 33, a number type
    whose upper case, as [toUpperCase] of the language gives it, is MOBILE)
    has a 6 in the place of the first dot and numbers the dots of [post]
    from 1; any other placeholder has a 1 there and numbers the dots of
    [post] from 2. *)
Theorem placeholder_first_digit (toUpperCase : string -> string)
    (_placeholder placeholderNumberType : option string)
    (format : option PhoneInput.Format) (dialCode pre post : string) :
  Js.truthy_str _placeholder = false ->
  match default (PhoneInput.Plain (PhoneInput.dots 9)) format with
  | PhoneInput.Plain f | PhoneInput.Formats f _ => f
  end = pre +:+ String "."%char post ->
  "."%char ∉ list_ascii_of_string pre ->
  let french_mobile :=
    dialCode = "33" /\ toUpperCase <$> placeholderNumberType = Some "MOBILE" in
  (french_mobile ->
   PhoneInput.placeholder toUpperCase _placeholder placeholderNumberType
     format dialCode
   = "+" +:+ dialCode +:+ " " +:+ pre +:+ "6" +:+ PhoneInput.number_dots 0 post)
  /\ (~ french_mobile ->
      PhoneInput.placeholder toUpperCase _placeholder placeholderNumberType
        format dialCode
      = "+" +:+ dialCode +:+ " " +:+ pre +:+ "1"
        +:+ PhoneInput.number_dots 1 post).
Proof.
  intros Hno Hformat Hpre french_mobile.
  unfold PhoneInput.placeholder, PhoneInput.phoneFormat. rewrite Hno, Hformat.
  split.
  - intros [-> Hmobile]. rewrite Hmobile, bool_decide_true by done. simpl.
    rewrite replace_first_dot_prefix by done.
    by rewrite number_dots_prefix by done.
  - intros Hnot.
    assert (String.eqb dialCode "33"
            && bool_decide (toUpperCase <$> placeholderNumberType
                            = Some "MOBILE") = false) as ->.
    { apply not_true_is_false. intros [Hd Hm]%andb_true_iff. apply Hnot.
      split; [by apply String.eqb_eq|by apply bool_decide_eq_true in Hm]. }
    by rewrite number_dots_prefix by done.
Qed.

Lemma distinct_from_elem_of (seen l : list string) (x : string) :
  x ∈ PhoneInput.distinct_from seen l <-> x ∈ l /\ x ∉ seen.
Proof.
  revert seen. induction l as [|y l IH]; intros seen; simpl.
  - split; [by intros ?%elem_of_nil|by intros [?%elem_of_nil _]].
  - destruct (Phone.includes seen y) eqn:Hy.
    + apply includes_elem_of in Hy. rewrite IH, elem_of_cons. split.
      * intros [? ?]. by split; [right|].
      * intros [[->|?] ?]; by split.
    + assert (y ∉ seen) as Hny.
      { intros Hin%includes_elem_of. congruence. }
      rewrite !elem_of_cons, IH, elem_of_cons. split.
      * intros [->|[? [? ?]%Decidable.not_or]]; [by split; [left|]|].
        by split; [right|].
      * intros [[->|?] ?]; [by left|].
        destruct (decide (x = y)) as [->|?]; [by left|]. right.
        split; [done|]. by intros [?|?].
Qed.

Lemma distinct_from_NoDup (seen l : list string) :
  NoDup (PhoneInput.distinct_from seen l).
Proof.
  revert seen. induction l as [|y l IH]; intros seen; simpl; [constructor|].
  destruct (Phone.includes seen y); [done|]. constructor; [|done].
  rewrite distinct_from_elem_of. intros [_ Hy]. apply Hy. by left.
Qed.

Lemma language_country_Some (only : list string) (language c : string) :
  PhoneInput.language_country only language = Some c
  <-> exists part,
        Phone.split_dash language !! 1%nat = Some part
        /\ c = Phone.toLowerCase part /\ c <> ""
        /\ (only = [] \/ c ∈ only).
Proof.
  unfold PhoneInput.language_country.
  destruct (Phone.split_dash language !! 1%nat) as [part|]; simpl;
    [|split; [done|by intros (? & ? & _)]].
  destruct (String.eqb_spec (Phone.toLowerCase part) "") as [Hempty|Hne]; simpl.
  { split; [done|]. intros (? & [= <-] & -> & ? & _). done. }
  assert (Nat.eqb (length only) 0 || Phone.includes only (Phone.toLowerCase part)
          = true <-> only = [] \/ Phone.toLowerCase part ∈ only) as Hallowed.
  { rewrite orb_true_iff, Nat.eqb_eq, includes_elem_of.
    by rewrite length_zero_iff_nil. }
  destruct (_ || _).
  - split.
    + intros [= <-]. exists part. repeat split; try done. by apply Hallowed.
    + by intros (? & [= <-] & -> & _).
  - split; [done|]. intros (? & [= <-] & -> & _ & Hc).
    by apply Hallowed in Hc.
Qed.

(** X16. The preferred countries start with the default country and hold
    no country twice; besides the default country they hold exactly the
    countries, in lower case, of the languages of the browser that have one,
    restricted to [onlyCountries] when that list is not empty, so that all
    of them are in the list when the default country is. *)
Theorem preferredCountries_distinct (defaultCountry : string)
    (languages only : list string) :
  let preferred := PhoneInput.preferredCountries defaultCountry languages only in
  NoDup preferred
  /\ head preferred = Some defaultCountry
  /\ (forall c,
        c ∈ preferred
        <-> c = defaultCountry
            \/ exists language part,
                 language ∈ languages
                 /\ Phone.split_dash language !! 1%nat = Some part
                 /\ c = Phone.toLowerCase part /\ c <> ""
                 /\ (only = [] \/ c ∈ only))
  /\ (defaultCountry ∈ only -> forall c, c ∈ preferred -> c ∈ only).
Proof.
  intros preferred. subst preferred. unfold PhoneInput.preferredCountries.
  assert (forall c,
            c ∈ PhoneInput.distinct_from []
                  (defaultCountry :: omap (PhoneInput.language_country only) languages)
            <-> c = defaultCountry
                \/ exists language part,
                     language ∈ languages
                     /\ Phone.split_dash language !! 1%nat = Some part
                     /\ c = Phone.toLowerCase part /\ c <> ""
                     /\ (only = [] \/ c ∈ only)) as Helem.
  { intros c. rewrite distinct_from_elem_of, elem_of_cons, list_elem_of_omap.
    split.
    - intros [[->|(language & Hl & Hc)] _]; [by left|]. right.
      apply language_country_Some in Hc as (part & ? & ? & ? & ?).
      by exists language, part.
    - intros [->|(language & part & Hl & Hp & Hc & Hne & Hin)].
      + split; [by left|apply not_elem_of_nil].
      + split; [|apply not_elem_of_nil]. right. exists language.
        split; [done|]. apply language_country_Some. by exists part. }
  split; [apply distinct_from_NoDup|]. split; [done|]. split; [done|].
  intros Hdefault c [->|(language & part & _ & _ & _ & _ & [->|Hin])]%Helem;
    [done| |done].
  by apply elem_of_nil in Hdefault.
Qed.

Lemma list_ascii_app (a b : string) :
  list_ascii_of_string (a +:+ b)
  = (list_ascii_of_string a ++ list_ascii_of_string b)%list.
Proof. induction a as [|c a IH]; [done|]. simpl. by rewrite IH. Qed.

Lemma split_nonword_from_pieces (cur : string) (sep : bool) (s : string) :
  forallb Phone.is_word (list_ascii_of_string cur) = true ->
  Phone.split_nonword_from cur sep s <> []
  /\ forall piece, piece ∈ Phone.split_nonword_from cur sep s ->
       forallb Phone.is_word (list_ascii_of_string piece) = true.
Proof.
  revert cur sep. induction s as [|c s IH]; intros cur sep Hcur; simpl.
  - split; [done|]. by intros piece ->%list_elem_of_singleton.
  - destruct (Phone.is_word c) eqn:Hc.
    + apply IH. rewrite list_ascii_app, forallb_app, Hcur. simpl. by rewrite Hc.
    + destruct sep; [by apply IH|]. split; [done|].
      intros piece [->|Hin]%elem_of_cons; [done|].
      by apply (IH EmptyString true).
Qed.

Lemma lower_char_word (c : ascii) :
  Phone.is_word c = true ->
  Phone.is_word (Phone.lower_char c)
  && Ascii.eqb (Phone.lower_char (Phone.lower_char c)) (Phone.lower_char c) = true.
Proof. destruct c as [[] [] [] [] [] [] [] []]; by vm_compute. Qed.

Lemma toLowerCase_lower_word (s : string) :
  forallb Phone.is_word (list_ascii_of_string s) = true ->
  PhoneInput.lower_word (Phone.toLowerCase s) = true.
Proof.
  unfold PhoneInput.lower_word. induction s as [|c s IH]; [done|]. simpl.
  intros [Hc Hs]%andb_true_iff. by rewrite lower_char_word, IH.
Qed.

Lemma defaultCountry_in_only
    (_findLocale : list string -> string -> (string -> string) -> option string)
    (initialCountry : option string) (locale : string)
    (languages only : list string) :
  only <> [] ->
  Phone.defaultCountry _findLocale initialCountry locale languages only ∈ only.
Proof.
  intros Hne. unfold Phone.defaultCountry. destruct only as [|first others]; [done|].
  match goal with |- context [Phone.includes ?l ?c] =>
    destruct (Phone.includes l c) eqn:Hin end; simpl.
  - by apply includes_elem_of.
  - apply list_elem_of_here.
Qed.

(** X17. When the [onlyCountries] attribute is given, be it empty, the
    list of countries is not empty and holds only names made of lower case
    letters, digits and underscores; the default country is then always one
    of the list.  For the empty attribute the list holds the empty name
    alone. *)
Theorem onlyCountries_given
    (_findLocale : list string -> string -> (string -> string) -> option string)
    (initialCountry : option string) (locale : string) (languages : list string)
    (attribute : string) :
  let only := Phone.onlyCountries (Some attribute) in
  only <> []
  /\ (forall country, country ∈ only -> PhoneInput.lower_word country = true)
  /\ Phone.defaultCountry _findLocale initialCountry locale languages only ∈ only
  /\ Phone.onlyCountries (Some "") = [""].
Proof.
  intros only. subst only. unfold Phone.onlyCountries, Phone.split_nonword.
  destruct (split_nonword_from_pieces EmptyString false attribute eq_refl)
    as [Hne Hword].
  assert (Phone.toLowerCase <$> Phone.split_nonword_from "" false attribute <> [])
    as Hne'.
  { by destruct (Phone.split_nonword_from "" false attribute). }
  split; [done|]. split; [|split; [|done]].
  - intros country (piece & -> & Hin)%list_elem_of_fmap.
    by apply toLowerCase_lower_word, Hword.
  - by apply defaultCountry_in_only.
Qed.

(** ** The further properties at sample inputs *)



(** X5 at a readonly panel with an editor and a viewer. *)
Lemma FormWidget_without_value_atom_witness :
  isField Cases.panel_with_editor = false
  /\ ((exists Comp, FormWidget Cases.panel_props Sample.readonly_state = Custom Comp)
      \/ FormWidget Cases.panel_props Sample.readonly_state = Nothing
      \/ FormWidget Cases.panel_props Sample.readonly_state = FormItem None).
Proof.
  split; [reflexivity|].
  apply (FormWidget_without_value_atom Cases.panel_props Sample.readonly_state).
  reflexivity.
Defined.

(** X6 at the same panel: its widget is shown readonly, not as a field. *)
Lemma form_item_below_FormWidget_witness :
  render Cases.useWidget Cases.panel_props Sample.readonly_state
  = Below (ItemWidget 7 Cases.panel_with_editor (Js.Bool true))
  /\ ItemWidget 7 Cases.panel_with_editor (Js.Bool true) <> ItemNothing.
Proof.
  split; [reflexivity|].
  apply (form_item_below_FormWidget Cases.useWidget Cases.panel_props
           Sample.readonly_state
           (ItemWidget 7 Cases.panel_with_editor (Js.Bool true))).
  reflexivity.
Defined.

(** X9 at [Sample.conditions], whose validity expression is false. *)
Lemma invalid_after_validIf_witness :
  (validIf Sample.conditions = Some "archived" /\ "archived" <> "")
  /\ invalid
       (st_widget
          (exec (recordUpdate (E:=Sample.externals) Sample.conditions
                   false false false Sample.record) Sample.fresh)) = true.
Proof.
  split; [split; [reflexivity|discriminate]|].
  apply (invalid_after_validIf (E:=Sample.externals) Sample.conditions
           false false false Sample.record Sample.fresh "archived" eq_refl
           ltac:(discriminate)).
  left. split; [reflexivity|discriminate].
Defined.

(** X13 at the first record. *)
Lemma createContextRef_fresh_witness :
  cached (E:=Sample.externals) false (initialRefs (E:=Sample.externals) false false)
  /\ fst (createContextRef (E:=Sample.externals) true false false
            (initialRefs (E:=Sample.externals) false false) Sample.record)
     = createContext (E:=Sample.externals) true false false Sample.record.
Proof.
  split; [exact I|].
  apply (createContextRef_fresh (E:=Sample.externals) true false false
           (initialRefs (E:=Sample.externals) false false) Sample.record).
  exact I.
Defined.

(** X14 for the mobile numbers of France: thirteen characters, of which
    the first is 6 and the third, which stands for the second dot of the
    format, is 1. *)
Lemma placeholder_numbers_witness :
  Js.truthy_str None = false
  /\ exists numbers,
       PhoneInput.placeholder Cases.upper_ascii None (Some "mobile")
         Cases.french_format "33"
       = "+33 " +:+ numbers
       /\ String.length numbers = 13
       /\ list_ascii_of_string numbers !! 0%nat = Some "6"%char
       /\ list_ascii_of_string numbers !! 2%nat = Some "1"%char.
Proof.
  split; [reflexivity|].
  destruct (placeholder_numbers Cases.upper_ascii None (Some "mobile")
              Cases.french_format "33" eq_refl)
    as (numbers & Hplaceholder & Hlength & _ & Hfrench & _).
  exists numbers. split; [exact Hplaceholder|]. split; [exact Hlength|].
  split.
  - exact (Hfrench (conj eq_refl eq_refl) 0%nat eq_refl).
  - exact (Hfrench (conj eq_refl eq_refl) 2%nat eq_refl).
Defined.

(** X15 for the mobile numbers of France. *)
Lemma placeholder_first_digit_witness :
  PhoneInput.placeholder Cases.upper_ascii None (Some "mobile")
    Cases.french_format "33"
  = "+33 6 12 34 56 78".
Proof.
  apply (proj1 (placeholder_first_digit Cases.upper_ascii None (Some "mobile")
                  Cases.french_format "33" "" " .. .. .. .." eq_refl eq_refl
                  ltac:(apply not_elem_of_nil))).
  split; reflexivity.
Defined.

